(** * ScopeResolver: a shallow embedding of [src/scope-resolver.js]

    The resolver turns query captures into scope boundaries.  The embedding
    keeps the shape of the JavaScript source:

    - positions are records of two integers, ranges are records of two
      positions and two character indices;
    - the three instance maps ([map], [rangeData], [patternCache]) are finite
      maps keyed by the very strings the source builds;
    - a [setProperties] object is the list of its own properties in
      iteration order;
    - exceptions are explicit ([Completion]) and the methods that write to
      the instance are state transformers ([M]);
    - the collaborators the source calls but does not define (the text
      buffer, [Number], [RegExp]) are taken as data: the buffer is a field of
      the resolver as in the source, the JavaScript built-ins are an
      [Engine].

    Conventions.  Text is made of one-byte characters.  Numbers are integers
    (tree-sitter rows, columns and indices are).

    Scope.  The source asks [key in ScopeResolver.ADJUSTMENTS] and
    [key in ScopeResolver.TESTS], and [key in data] of recorded metadata.
    JavaScript's [in] is also true of the names every object inherits from
    [Object.prototype] ([toString], [constructor], [hasOwnProperty], ...), and
    the source then calls the inherited function as an adjustment or a test.
    The embedding looks keys up among the declared directives, and among the
    own keys of [setProperties], only: it is the source on captures none of
    whose keys is an inherited name ([noInheritedKeys]), and a property that
    rests on a key being no directive carries that condition as a
    hypothesis. *)

From Stdlib Require Import ZArith Lia Ascii String.
From stdpp Require Import base option list strings pretty gmap.

Local Open Scope Z_scope.
Set Warnings "-register-all".

(** ** Exceptions *)

Inductive Exn : Type :=
  | TypeError
  | SyntaxError
  | Error (message : string).

(** The outcome of evaluating an expression that may throw. *)
Inductive Completion (A : Type) : Type :=
  | Normal (a : A)
  | Throw (e : Exn).
Arguments Normal {A} a.
Arguments Throw {A} e.

Definition bindC {A B} (c : Completion A) (k : A -> Completion B) : Completion B :=
  match c with
  | Normal a => k a
  | Throw e => Throw e
  end.

Notation "'try!' x := c 'in' k" := (bindC c (fun x => k))
  (at level 10, x name, c at level 100, k at level 200).

(** ** Strings, as the source uses them *)

(** [s.indexOf(search)] *)
Fixpoint indexOf (s search : string) : option nat :=
  if String.prefix search s then Some O
  else match s with
       | EmptyString => None
       | String _ s' => S <$> indexOf s' search
       end.

(** [s.includes(search)] *)
Definition includes (s search : string) : bool :=
  bool_decide (is_Some (indexOf s search)).

(** [s.slice(start)] for a start that is not negative. *)
Fixpoint slice (s : string) (start : nat) : string :=
  match start, s with
  | O, _ => s
  | S n, String _ s' => slice s' n
  | S _, EmptyString => EmptyString
  end.

(** [s.substring(0, n)] *)
Fixpoint substring_to (s : string) (n : nat) : string :=
  match n, s with
  | S m, String c s' => String c (substring_to s' m)
  | _, _ => EmptyString
  end.

(** The replacement-template expansion of [String.prototype.replace]
    (ECMAScript GetSubstitution) for a string pattern, which has no capture
    groups: [$$] is a dollar sign, [$&] the matched text, [$`] the text
    before the match and [$'] the text after it.  References to capture groups
    ([$1], [$<name>]) have nothing to refer to and stay as written. *)
Fixpoint getSubstitution (matched before after template : string) : string :=
  match template with
  | EmptyString => EmptyString
  | String c rest =>
      if bool_decide (c = "$"%char) then
        match rest with
        | String d rest' =>
            if bool_decide (d = "$"%char) then
              String "$" (getSubstitution matched before after rest')
            else if bool_decide (d = "&"%char) then
              matched +:+ getSubstitution matched before after rest'
            else if bool_decide (d = "`"%char) then
              before +:+ getSubstitution matched before after rest'
            else if bool_decide (d = "'"%char) then
              after +:+ getSubstitution matched before after rest'
            else String c (getSubstitution matched before after rest)
        | EmptyString => String c EmptyString
        end
      else String c (getSubstitution matched before after rest)
  end.

(** [s.replace(search, replacement)] with a string pattern: the first
    occurrence only, and the replacement is a template. *)
Definition replace (s search replacement : string) : string :=
  match indexOf s search with
  | None => s
  | Some i =>
      let before := substring_to s i in
      let after := slice s (i + String.length search) in
      before +:+ getSubstitution search before after replacement +:+ after
  end.

(** The same with the replacement taken as it is: what "interpolating the
    text into the name" means when the text is not read as a template. *)
Definition replaceFirst (s search replacement : string) : string :=
  match indexOf s search with
  | None => s
  | Some i =>
      substring_to s i +:+ replacement +:+ slice s (i + String.length search)
  end.

(** [s.split(separator)] for a one-character separator. *)
Fixpoint split_go (separator : ascii) (cur : string) (s : string) : list string :=
  match s with
  | EmptyString => [String.rev cur]
  | String c s' =>
      if bool_decide (c = separator)
      then String.rev cur :: split_go separator EmptyString s'
      else split_go separator (String c cur) s'
  end.

Definition split (s : string) (separator : ascii) : list string :=
  split_go separator EmptyString s.

(** [s.split('.')] *)
Definition split_dot (s : string) : list string := split s ".".

(** The separator does not occur in the string. *)
Fixpoint avoids (separator : ascii) (s : string) : bool :=
  match s with
  | EmptyString => true
  | String c s' => negb (bool_decide (c = separator)) && avoids separator s'
  end.

(** [parts.join('.')] *)
Fixpoint join_dot (parts : list string) : string :=
  match parts with
  | [] => EmptyString
  | [p] => p
  | p :: ps => p +:+ "." +:+ join_dot ps
  end.

(** The characters [\s] matches, among one-byte characters. *)
Definition is_whitespace (c : ascii) : bool :=
  let n := Ascii.nat_of_ascii c in
  bool_decide (n = 9 \/ n = 10 \/ n = 11 \/ n = 12 \/ n = 13 \/ n = 32 \/ n = 160)%nat.

(** [/\S/.test(s)] *)
Fixpoint has_non_whitespace (s : string) : bool :=
  match s with
  | EmptyString => false
  | String c s' => negb (is_whitespace c) || has_non_whitespace s'
  end.

(** ** Points *)

Record Point : Type := mkPoint { row : Z; column : Z }.

Global Instance Point_eq_dec : EqDecision Point.
Proof. solve_decision. Defined.

Definition comparePoints (a b : Point) : Z :=
  let rows := row a - row b in
  if rows =? 0 then column a - column b else rows.

Definition isBetweenPoints (point a b : Point) : bool :=
  let comp := comparePoints a b in
  let lesser := if comp >? 0 then b else a in
  let greater := if comp >? 0 then a else b in
  (comparePoints point lesser >=? 0) && (comparePoints point greater <=? 0).

(** ** Syntax nodes *)

(** What the resolver can see of a tree-sitter node.  [parent] is the chain
    of ancestors; [children] the node's children in order, so that
    [firstChild], [lastChild], [childCount] and [child(i)] are read off it;
    [hasError] and [descendantsOfType] are the node's methods. *)
Inductive SyntaxNode : Type := mkNode {
  id : Z;
  type : string;
  text : string;
  startPosition : Point;
  endPosition : Point;
  startIndex : Z;
  endIndex : Z;
  hasError : bool;
  parent : option SyntaxNode;
  children : list SyntaxNode;
  descendantsOfType : string -> list SyntaxNode
}.

Definition firstChild (n : SyntaxNode) : option SyntaxNode := head (children n).
Definition lastChild (n : SyntaxNode) : option SyntaxNode := last (children n).

(** ** Values met while following a node descriptor *)

Inductive JSValue : Type :=
  | JUndefined
  | JNull
  | JNumber (n : Z)
  | JString (s : string)
  | JBoolean (b : bool)
  | JPoint (p : Point)
  | JNode (n : SyntaxNode)
  | JFunction.

(** [!!v] *)
Definition truthy (v : JSValue) : bool :=
  match v with
  | JUndefined | JNull => false
  | JNumber n => negb (n =? 0)
  | JString s => negb (bool_decide (s = EmptyString))
  | JBoolean b => b
  | JPoint _ | JNode _ | JFunction => true
  end.

Definition of_nullable (o : option SyntaxNode) : JSValue :=
  match o with
  | Some n => JNode n
  | None => JNull
  end.

Definition node_property (n : SyntaxNode) (name : string) : JSValue :=
  if bool_decide (name = "id") then JNumber (id n)
  else if bool_decide (name = "type") then JString (type n)
  else if bool_decide (name = "text") then JString (text n)
  else if bool_decide (name = "startPosition") then JPoint (startPosition n)
  else if bool_decide (name = "endPosition") then JPoint (endPosition n)
  else if bool_decide (name = "startIndex") then JNumber (startIndex n)
  else if bool_decide (name = "endIndex") then JNumber (endIndex n)
  else if bool_decide (name = "parent") then of_nullable (parent n)
  else if bool_decide (name = "firstChild") then of_nullable (firstChild n)
  else if bool_decide (name = "lastChild") then of_nullable (lastChild n)
  else if bool_decide (name = "childCount") then JNumber (Z.of_nat (length (children n)))
  else if bool_decide (name = "hasError") then JFunction
  else if bool_decide (name = "child") then JFunction
  else if bool_decide (name = "descendantsOfType") then JFunction
  else JUndefined.

(** [v[name]]; reading a property of [undefined] or [null] throws. *)
Definition get_property (v : JSValue) (name : string) : Completion JSValue :=
  match v with
  | JUndefined | JNull => Throw TypeError
  | JNode n => Normal (node_property n name)
  | JPoint p =>
      Normal (if bool_decide (name = "row") then JNumber (row p)
              else if bool_decide (name = "column") then JNumber (column p)
              else JUndefined)
  | JString s =>
      Normal (if bool_decide (name = "length") then JNumber (Z.of_nat (String.length s))
              else JUndefined)
  | JNumber _ | JBoolean _ | JFunction => Normal JUndefined
  end.

(** The loop of [resolveNodeDescriptor] over the remaining parts. *)
Fixpoint resolveParts (result : JSValue) (parts : list string) : Completion JSValue :=
  match result, parts with
  | JNull, _ => Normal result
  | _, [] => Normal result
  | _, part :: parts' =>
      try! next := get_property result part in
      if negb (truthy next) then Normal JNull
      else resolveParts next parts'
  end.

Definition resolveNodeDescriptor (node : SyntaxNode) (descriptor : string)
  : Completion JSValue :=
  resolveParts (JNode node) (split_dot descriptor).

Definition resolveNodePosition (node : SyntaxNode) (descriptor : string)
  : Completion JSValue :=
  let parts := split_dot descriptor in
  let lastPart := default EmptyString (last parts) in
  let parts := removelast parts in
  try! result :=
    (if bool_decide (length parts = 0%nat) then Normal (JNode node)
     else resolveNodeDescriptor node (join_dot parts)) in
  get_property result lastPart.

(** ** Ranges, directive properties, captures *)

(** "A range is not a [Range] object, but rather an object that has all four
    of [startPosition], [endPosition], [startIndex] and [endIndex]". *)
Record Range : Type := mkRange {
  range_startPosition : Point;
  range_startIndex : Z;
  range_endPosition : Point;
  range_endIndex : Z
}.

(** "Any single node can thus fulfill this contract". *)
Definition node_range (n : SyntaxNode) : Range :=
  {| range_startPosition := startPosition n;
     range_startIndex := startIndex n;
     range_endPosition := endPosition n;
     range_endIndex := endIndex n |}.

(** A [setProperties] object: its own properties, in iteration order. *)
Definition Props : Type := list (string * string).

(** [props[key]] *)
Fixpoint props_get (props : Props) (key : string) : option string :=
  match props with
  | [] => None
  | (k, v) :: rest => if bool_decide (k = key) then Some v else props_get rest key
  end.

(** [key in props], for a key that is not a name inherited from
    [Object.prototype]: the own keys. *)
Definition props_has (props : Props) (key : string) : bool :=
  bool_decide (is_Some (props_get props key)).

(** Truthiness of [props[key]]: present and not the empty string. *)
Definition props_truthy (props : Props) (key : string) : bool :=
  match props_get props key with
  | Some v => negb (bool_decide (v = EmptyString))
  | None => false
  end.

(** The names every object inherits from [Object.prototype]: [in] finds
    them in the two dispatch tables and in every [setProperties] object. *)
Definition inheritedNames : list string :=
  [ "constructor"; "hasOwnProperty"; "isPrototypeOf"; "propertyIsEnumerable";
    "toLocaleString"; "toString"; "valueOf"; "__proto__";
    "__defineGetter__"; "__defineSetter__"; "__lookupGetter__"; "__lookupSetter__" ].

Definition inheritedName (key : string) : bool := bool_decide (key ∈ inheritedNames).

(** None of the keys is an inherited name. *)
Definition noInheritedKeys (props : Props) : bool :=
  forallb (fun entry => negb (inheritedName (fst entry))) props.

(** A capture; an absent [setProperties] is the empty object, as the
    destructuring default of the source makes it. *)
Record Capture : Type := mkCapture {
  node : SyntaxNode;
  name : string;
  setProperties : Props
}.

(** ** Collaborators *)

Record Buffer : Type := mkBuffer {
  positionForCharacterIndex : Z -> Point;
  characterIndexForPosition : Point -> Z;
  clipPosition : Point -> Point;
  lineForRow : Z -> option string
}.

Record LanguageLayer : Type := mkLanguageLayer {
  depth : Z;
  layer_buffer : Buffer
}.

(** The JavaScript built-ins the source relies on.  [ToNumber] is [Number]
    applied to a string, [None] standing for [NaN]; [RegExp_valid] tells
    whether [new RegExp(pattern)] succeeds; [RegExp_exec pattern text] is the
    index and text of the first match of the pattern in the text. *)
Record Engine : Type := mkEngine {
  ToNumber : string -> option Z;
  RegExp_valid : string -> bool;
  RegExp_exec : string -> string -> option (Z * string)
}.

(** A [RegExp] object.  [regexp_id] is its identity: two evaluations of
    [new RegExp] never give the same object. *)
Record RegExp : Type := mkRegExp {
  regexp_id : nat;
  source : string
}.

(** Which list of a bundle a boundary goes to. *)
Inductive Which : Type := which_open | which_close.

Definition _keyForPoint (point : Point) : string :=
  pretty (row point) +:+ "," +:+ pretty (column point).

Definition _keyForRange (range : Range) : string :=
  pretty (range_startIndex range) +:+ "/" +:+ pretty (range_endIndex range).

Section Resolver.

Context {ScopeId : Type}.
Variable engine : Engine.

Record Bundle : Type := mkBundle {
  open : list ScopeId;
  close : list ScopeId
}.

(** The instance.  [allocated] is not a field of the source: it counts the
    [RegExp] objects constructed so far and names the next one. *)
Record ScopeResolver : Type := mkScopeResolver {
  languageLayer : LanguageLayer;
  buffer : Buffer;
  idForScope : string -> ScopeId;
  map : gmap string Bundle;
  rangeData : gmap string Props;
  patternCache : gmap string RegExp;
  allocated : nat
}.

Definition constructor (languageLayer : LanguageLayer)
    (idForScope : string -> ScopeId) : ScopeResolver :=
  {| languageLayer := languageLayer;
     buffer := layer_buffer languageLayer;
     idForScope := idForScope;
     map := ∅;
     rangeData := ∅;
     patternCache := ∅;
     allocated := 0 |}.

(** A method that may write to the instance and may throw. *)
Definition M (A : Type) : Type := ScopeResolver -> Completion A * ScopeResolver.

Definition ret {A} (a : A) : M A := fun this => (Normal a, this).
Definition throw {A} (e : Exn) : M A := fun this => (Throw e, this).
Definition lift {A} (c : Completion A) : M A := fun this => (c, this).

Definition bind {A B} (m : M A) (k : A -> M B) : M B :=
  fun this =>
    match m this with
    | (Normal a, this') => k a this'
    | (Throw e, this') => (Throw e, this')
    end.

Notation "'do!' x := c 'in' k" := (bind c (fun x => k))
  (at level 10, x name, c at level 100, k at level 200).

Definition getOrCompilePattern (pattern : string) : M RegExp :=
  fun this =>
    match patternCache this !! pattern with
    | Some regex => (Normal regex, this)
    | None =>
        if RegExp_valid engine pattern then
          let regex := {| regexp_id := allocated this; source := pattern |} in
          (Normal regex,
           {| languageLayer := languageLayer this;
              buffer := buffer this;
              idForScope := idForScope this;
              map := map this;
              rangeData := rangeData this;
              patternCache := <[pattern := regex]> (patternCache this);
              allocated := S (allocated this) |})
        else (Throw SyntaxError, this)
    end.

Definition indexToPosition (this : ScopeResolver) (index : Z) : Point :=
  positionForCharacterIndex (buffer this) index.

Definition positionToIndex (this : ScopeResolver) (position : Point) : Z :=
  characterIndexForPosition (buffer this) position.

Definition adjustPositionByOffset (this : ScopeResolver)
    (position : Point) (offset : Z) : Point :=
  let index := positionToIndex this position in
  let index := index + offset in
  let newPosition := indexToPosition this index in
  clipPosition (buffer this) newPosition.

Definition setDataForRange (range : Range) (props : Props)
    (this : ScopeResolver) : ScopeResolver :=
  let key := _keyForRange range in
  {| languageLayer := languageLayer this;
     buffer := buffer this;
     idForScope := idForScope this;
     map := map this;
     rangeData := <[key := props]> (rangeData this);
     patternCache := patternCache this;
     allocated := allocated this |}.

Definition getDataForRange (this : ScopeResolver) (syntax : Range) : option Props :=
  let key := _keyForRange syntax in
  rangeData this !! key.

(** [isValidRange] on a range whose fields have their types: an index is a
    number and a position is a point, so the four [typeof] guards of the
    source pass and the two comparisons decide.  [isValidRangeOf] below is the
    method on any four field values, guards included; the two agree on typed
    ranges ([isValidRangeOf_typed]). *)
Definition isValidRange (range : Range) : bool :=
  if range_startIndex range >? range_endIndex range then false
  else if comparePoints (range_startPosition range) (range_endPosition range) >=? 0
  then false
  else true.

(** [typeof v] *)
Definition typeOf (v : JSValue) : string :=
  match v with
  | JUndefined => "undefined"
  | JNull => "object"
  | JNumber _ => "number"
  | JString _ => "string"
  | JBoolean _ => "boolean"
  | JPoint _ | JNode _ => "object"
  | JFunction => "function"
  end.

(** [v.row] or [v.column] as a number; [None] is [NaN] (what arithmetic makes
    of [undefined]). *)
Definition coordinate (v : JSValue) (name : string) : Completion (option Z) :=
  try! c := get_property v name in
  Normal match c with
         | JNumber n => Some n
         | _ => None
         end.

(** [comparePoints] on any two values; [None] is [NaN]. *)
Definition comparePointsOf (a b : JSValue) : Completion (option Z) :=
  try! aRow := coordinate a "row" in
  try! bRow := coordinate b "row" in
  match aRow, bRow with
  | Some x, Some y =>
      if x - y =? 0 then
        try! aColumn := coordinate a "column" in
        try! bColumn := coordinate b "column" in
        Normal match aColumn, bColumn with
               | Some u, Some v => Some (u - v)
               | _, _ => None
               end
      else Normal (Some (x - y))
  | _, _ => Normal None
  end.

(** [isValidRange] of the source on the four fields of whatever it is given:
    the [typeof] guards first, then the two comparisons (a comparison with
    [NaN] is false). *)
Definition isValidRangeOf (startPosition startIndex endPosition endIndex : JSValue)
  : Completion bool :=
  if negb (bool_decide (typeOf startIndex = "number") &&
           bool_decide (typeOf endIndex = "number") &&
           bool_decide (typeOf startPosition = "object") &&
           bool_decide (typeOf endPosition = "object"))
  then Normal false
  else
    match startIndex, endIndex with
    | JNumber i, JNumber j =>
        if i >? j then Normal false
        else
          try! compared := comparePointsOf startPosition endPosition in
          match compared with
          | Some z => if z >=? 0 then Normal false else Normal true
          | None => Normal true
          end
    | _, _ => Normal false
    end.

(** *** The inclusion tests *)

Definition Test : Type :=
  SyntaxNode -> string -> Props -> option Props -> ScopeResolver -> Completion bool.

(** [existingData && existingData.final] *)
Definition existing_final (existingData : option Props) : bool :=
  match existingData with
  | Some data => props_truthy data "final"
  | None => false
  end.

Definition final : Test := fun node value props existingData instance =>
  Normal (negb (existing_final existingData)).

Definition shy : Test := fun node value props existingData instance =>
  Normal (bool_decide (existingData = None)).

Definition onlyIfError : Test := fun node value props existingData instance =>
  Normal (bool_decide (type node = "ERROR")).

Definition onlyIfHasError : Test := fun node value props existingData instance =>
  Normal (hasError node).

Definition onlyIfInjection : Test := fun node value props existingData instance =>
  Normal (depth (languageLayer instance) >? 0).

Definition onlyIfRoot : Test := fun node value props existingData instance =>
  Normal (bool_decide (parent node = None)).

(** [node?.parent?.firstChild?.id === node.id], the parent being there. *)
Definition same_id (child : option SyntaxNode) (node : SyntaxNode) : bool :=
  match child with
  | Some c => id c =? id node
  | None => false
  end.

Definition onlyIfFirst : Test := fun node value props existingData instance =>
  Normal match parent node with
         | None => true
         | Some p => same_id (firstChild p) node
         end.

Definition onlyIfNotFirst : Test := fun node value props existingData instance =>
  Normal match parent node with
         | None => false
         | Some p => negb (same_id (firstChild p) node)
         end.

Definition onlyIfLast : Test := fun node value props existingData instance =>
  Normal match parent node with
         | None => true
         | Some p => same_id (lastChild p) node
         end.

Definition onlyIfNotLast : Test := fun node value props existingData instance =>
  Normal match parent node with
         | None => false
         | Some p => negb (same_id (lastChild p) node)
         end.

(** The sibling scan shared by [onlyIfFirstOfType] and [onlyIfLastOfType];
    running off the end is falsy in both. *)
Fixpoint scanSiblings (node : SyntaxNode) (siblings : list SyntaxNode) : bool :=
  match siblings with
  | [] => false
  | child :: rest =>
      if id child =? id node then true
      else if bool_decide (type child = type node) then false
      else scanSiblings node rest
  end.

Definition onlyIfFirstOfType : Test := fun node value props existingData instance =>
  Normal match parent node with
         | None => true
         | Some p => scanSiblings node (children p)
         end.

Definition onlyIfLastOfType : Test := fun node value props existingData instance =>
  Normal match parent node with
         | None => true
         | Some p => scanSiblings node (rev (children p))
         end.

(** [text.slice(column)] with a column that may be negative. *)
Definition sliceFrom (s : string) (start : Z) : string :=
  let len := Z.of_nat (String.length s) in
  let from := if start <? 0 then Z.max (len + start) 0 else start in
  slice s (Z.to_nat from).

Definition onlyIfLastTextOnRow : Test := fun node value props existingData instance =>
  match lineForRow (buffer instance) (row (endPosition node)) with
  | None => Throw TypeError
  | Some text =>
      let textAfterNode := sliceFrom text (column (endPosition node)) in
      Normal (negb (has_non_whitespace textAfterNode))
  end.

Definition onlyIfNotLastTextOnRow : Test := fun node value props existingData instance =>
  try! isLastTextOnRow := onlyIfLastTextOnRow node value props existingData instance in
  Normal (negb isLastTextOnRow).

(** The nodes [current = current.parent] visits. *)
Fixpoint ancestors (n : SyntaxNode) {struct n} : list SyntaxNode :=
  match parent n with
  | None => []
  | Some p => p :: ancestors p
  end.

Definition onlyIfDescendantOfType : Test := fun node type_ props existingData instance =>
  Normal (existsb (fun current => bool_decide (type current = type_)) (ancestors node)).

Definition onlyIfNotDescendantOfType : Test := fun node type_ props existingData instance =>
  try! isDescendantOfType := onlyIfDescendantOfType node type_ props existingData instance in
  Normal (negb isDescendantOfType).

Definition onlyIfAncestorOfType : Test := fun node type_ props existingData instance =>
  let descendants := descendantsOfType node type_ in
  Normal (Z.of_nat (length descendants) >? 0).

Definition onlyIfNotAncestorOfType : Test := fun node type_ props existingData instance =>
  let descendants := descendantsOfType node type_ in
  Normal (Z.of_nat (length descendants) =? 0).

Definition onlyIfDescendantOfNodeWithData : Test :=
  fun node key props existingData instance =>
    Normal (existsb
      (fun current =>
         match getDataForRange instance (node_range current) with
         | None => false
         | Some data => props_has data key
         end)
      (ancestors node)).

Definition onlyIfNotDescendantOfNodeWithData : Test :=
  fun node key props existingData instance =>
    try! isDescendantOfNodeWithData :=
      onlyIfDescendantOfNodeWithData node key props existingData instance in
    Normal (negb isDescendantOfNodeWithData).

(** [v === n] for a number [n] *)
Definition strictly_equals_number (v : JSValue) (n : Z) : bool :=
  match v with
  | JNumber m => m =? n
  | _ => false
  end.

Definition onlyIfOnSameRowAs : Test := fun node descriptor props existingData instance =>
  try! otherNodePosition := resolveNodePosition node descriptor in
  try! otherRow := get_property otherNodePosition "row" in
  Normal (strictly_equals_number otherRow (row (startPosition node))).

Definition onlyIfNotOnSameRowAs : Test := fun node descriptor props existingData instance =>
  try! otherNodePosition := resolveNodePosition node descriptor in
  try! otherRow := get_property otherNodePosition "row" in
  Normal (negb (strictly_equals_number otherRow (row (startPosition node)))).

(** A dispatch table: an object literal whose properties are functions.
    [table_get table key] is [table[key]] among the declared properties; for
    a key that is not an inherited name, [is_Some (table_get table key)] is
    [key in table]. *)
Fixpoint table_get {F : Type} (table : list (string * F)) (key : string) : option F :=
  match table with
  | [] => None
  | (k, f) :: rest => if bool_decide (k = key) then Some f else table_get rest key
  end.

Definition TESTS : list (string * Test) :=
  [ ("final", final);
    ("shy", shy);
    ("onlyIfError", onlyIfError);
    ("onlyIfHasError", onlyIfHasError);
    ("onlyIfInjection", onlyIfInjection);
    ("onlyIfRoot", onlyIfRoot);
    ("onlyIfFirst", onlyIfFirst);
    ("onlyIfNotFirst", onlyIfNotFirst);
    ("onlyIfLast", onlyIfLast);
    ("onlyIfNotLast", onlyIfNotLast);
    ("onlyIfFirstOfType", onlyIfFirstOfType);
    ("onlyIfLastOfType", onlyIfLastOfType);
    ("onlyIfLastTextOnRow", onlyIfLastTextOnRow);
    ("onlyIfNotLastTextOnRow", onlyIfNotLastTextOnRow);
    ("onlyIfDescendantOfType", onlyIfDescendantOfType);
    ("onlyIfNotDescendantOfType", onlyIfNotDescendantOfType);
    ("onlyIfAncestorOfType", onlyIfAncestorOfType);
    ("onlyIfNotAncestorOfType", onlyIfNotAncestorOfType);
    ("onlyIfDescendantOfNodeWithData", onlyIfDescendantOfNodeWithData);
    ("onlyIfNotDescendantOfNodeWithData", onlyIfNotDescendantOfNodeWithData);
    ("onlyIfOnSameRowAs", onlyIfOnSameRowAs);
    ("onlyIfNotOnSameRowAs", onlyIfNotOnSameRowAs) ].

(** *** The range adjustments *)

Definition Adjustment : Type :=
  SyntaxNode -> string -> Props -> Range -> M (option Range).

Definition outOfRange : Exn := Error "Cannot extend past original range of capture".

(** [isBetweenPoints] applied to whatever a descriptor resolved to.  Reading
    [row] off [undefined] or [null] throws; a value without numeric [row] and
    [column] compares as [NaN] and is between nothing. *)
Definition isBetweenPointsValue (point : JSValue) (a b : Point) : Completion bool :=
  match point with
  | JUndefined | JNull => Throw TypeError
  | JPoint p => Normal (isBetweenPoints p a b)
  | _ => Normal false
  end.

(** The position a descriptor names, when it is within the node. *)
Definition positionWithin (node : SyntaxNode) (value : string) : Completion Point :=
  try! position := resolveNodePosition node value in
  try! inside := isBetweenPointsValue position (startPosition node) (endPosition node) in
  match position, inside with
  | JPoint p, true => Normal p
  | _, _ => Throw outOfRange
  end.

Definition startAt : Adjustment := fun node value props range resolver =>
  match positionWithin node value with
  | Throw e => (Throw e, resolver)
  | Normal start =>
      (Normal (Some {| range_startPosition := start;
                       range_startIndex := positionToIndex resolver start;
                       range_endPosition := range_endPosition range;
                       range_endIndex := range_endIndex range |}), resolver)
  end.

Definition endAt : Adjustment := fun node value props range resolver =>
  match positionWithin node value with
  | Throw e => (Throw e, resolver)
  | Normal end_ =>
      (Normal (Some {| range_startPosition := range_startPosition range;
                       range_startIndex := range_startIndex range;
                       range_endPosition := end_;
                       range_endIndex := positionToIndex resolver end_ |}), resolver)
  end.

Definition offsetStart : Adjustment := fun node value props range resolver =>
  match ToNumber engine value with
  | None => (Normal None, resolver)
  | Some offset =>
      let offsetPosition :=
        adjustPositionByOffset resolver (range_startPosition range) offset in
      let offsetIndex := positionToIndex resolver offsetPosition in
      if negb (isBetweenPoints offsetPosition (startPosition node) (endPosition node))
      then (Throw outOfRange, resolver)
      else (Normal (Some {| range_startPosition := offsetPosition;
                            range_startIndex := offsetIndex;
                            range_endPosition := range_endPosition range;
                            range_endIndex := range_endIndex range |}), resolver)
  end.

Definition offsetEnd : Adjustment := fun node value props range resolver =>
  match ToNumber engine value with
  | None => (Normal None, resolver)
  | Some offset =>
      let offsetPosition :=
        adjustPositionByOffset resolver (range_endPosition range) offset in
      let offsetIndex := positionToIndex resolver offsetPosition in
      if negb (isBetweenPoints offsetPosition (startPosition node) (endPosition node))
      then (Throw outOfRange, resolver)
      else (Normal (Some {| range_startPosition := range_startPosition range;
                            range_startIndex := range_startIndex range;
                            range_endPosition := offsetPosition;
                            range_endIndex := offsetIndex |}), resolver)
  end.

(** [node.text.match(regex)]: the index of the first match and its text. *)
Definition matchText (node : SyntaxNode) (regex : RegExp) : option (Z * string) :=
  RegExp_exec engine (source regex) (text node).

Definition matchLength (m : Z * string) : Z := Z.of_nat (String.length (snd m)).

Definition startAndEndAroundFirstMatchOf : Adjustment :=
  fun node value props position =>
    do! regex := getOrCompilePattern value in
    fun resolver =>
      match matchText node regex with
      | None => (Normal None, resolver)
      | Some m =>
          let oldStartPosition := startPosition node in
          let startOffset := fst m in
          let endOffset := fst m + matchLength m in
          let newStart := adjustPositionByOffset resolver oldStartPosition startOffset in
          let newEnd := adjustPositionByOffset resolver oldStartPosition endOffset in
          (Normal (Some {| range_startPosition := newStart;
                           range_startIndex := positionToIndex resolver newStart;
                           range_endPosition := newEnd;
                           range_endIndex := positionToIndex resolver newEnd |}),
           resolver)
      end.

Definition startBeforeFirstMatchOf : Adjustment :=
  fun node value props position =>
    do! regex := getOrCompilePattern value in
    fun resolver =>
      match matchText node regex with
      | None => (Normal None, resolver)
      | Some m =>
          let oldStartPosition := startPosition node in
          let startOffset := fst m in
          let newStart := adjustPositionByOffset resolver oldStartPosition startOffset in
          (Normal (Some {| range_startPosition := newStart;
                           range_startIndex := positionToIndex resolver newStart;
                           range_endPosition := range_endPosition position;
                           range_endIndex := range_endIndex position |}),
           resolver)
      end.

Definition startAfterFirstMatchOf : Adjustment :=
  fun node value props position =>
    do! regex := getOrCompilePattern value in
    fun resolver =>
      match matchText node regex with
      | None => (Normal None, resolver)
      | Some m =>
          let oldStartPosition := startPosition node in
          let startOffset := fst m + matchLength m in
          let newStart := adjustPositionByOffset resolver oldStartPosition startOffset in
          (Normal (Some {| range_startPosition := newStart;
                           range_startIndex := positionToIndex resolver newStart;
                           range_endPosition := range_endPosition position;
                           range_endIndex := range_endIndex position |}),
           resolver)
      end.

Definition endBeforeFirstMatchOf : Adjustment :=
  fun node value props position =>
    do! regex := getOrCompilePattern value in
    fun resolver =>
      match matchText node regex with
      | None => (Normal None, resolver)
      | Some m =>
          let oldStartPosition := startPosition node in
          let endOffset := fst m in
          let newEnd := adjustPositionByOffset resolver oldStartPosition endOffset in
          (Normal (Some {| range_startPosition := range_startPosition position;
                           range_startIndex := range_startIndex position;
                           range_endPosition := newEnd;
                           range_endIndex := positionToIndex resolver newEnd |}),
           resolver)
      end.

Definition endAfterFirstMatchOf : Adjustment :=
  fun node value props position =>
    do! regex := getOrCompilePattern value in
    fun resolver =>
      match matchText node regex with
      | None => (Normal None, resolver)
      | Some m =>
          let oldStartPosition := startPosition node in
          let endOffset := fst m + matchLength m in
          let newEnd := adjustPositionByOffset resolver oldStartPosition endOffset in
          (Normal (Some {| range_startPosition := range_startPosition position;
                           range_startIndex := range_startIndex position;
                           range_endPosition := newEnd;
                           range_endIndex := positionToIndex resolver newEnd |}),
           resolver)
      end.

Definition ADJUSTMENTS : list (string * Adjustment) :=
  [ ("startAt", startAt);
    ("endAt", endAt);
    ("offsetStart", offsetStart);
    ("offsetEnd", offsetEnd);
    ("startAndEndAroundFirstMatchOf", startAndEndAroundFirstMatchOf);
    ("startBeforeFirstMatchOf", startBeforeFirstMatchOf);
    ("startAfterFirstMatchOf", startAfterFirstMatchOf);
    ("endBeforeFirstMatchOf", endBeforeFirstMatchOf);
    ("endAfterFirstMatchOf", endAfterFirstMatchOf) ].

(** *** Resolving a capture's range *)

(** Some key of the capture is a declared adjustment.  On a capture without
    inherited-name keys this is the source's
    [keys.some(k => k in ScopeResolver.ADJUSTMENTS)]. *)
Definition adjustsCaptureRange (capture : Capture) : bool :=
  let props := setProperties capture in
  let keys := fst <$> props in
  if bool_decide (length keys = 0%nat) then false
  else existsb (fun k => bool_decide (is_Some (table_get ADJUSTMENTS k))) keys.

(** The [for (let key in props)] loop of [determineCaptureRange] over the
    properties still to visit: each adjustment acts on the range the previous
    ones left, and a [null] ends the loop.  Keys that are no declared
    adjustment are passed over, as the source passes over every key that is
    not [in] the table; on an inherited-name key the source calls the
    inherited function instead, which the embedding does not follow. *)
Fixpoint applyAdjustments (node : SyntaxNode) (props : Props)
    (remaining : Props) (range : Range) : M (option Range) :=
  match remaining with
  | [] => ret (Some range)
  | (key, value) :: remaining' =>
      match table_get ADJUSTMENTS key with
      | None => applyAdjustments node props remaining' range
      | Some adjust =>
          do! adjusted := adjust node value props range in
          match adjusted with
          | None => ret None
          | Some range' => applyAdjustments node props remaining' range'
          end
      end
  end.

Definition determineCaptureRange (capture : Capture) : M (option Range) :=
  let props := setProperties capture in
  if negb (adjustsCaptureRange capture) then ret (Some (node_range (node capture)))
  else
    do! adjusted := applyAdjustments (node capture) props props (node_range (node capture)) in
    match adjusted with
    | None => ret None
    | Some range => if negb (isValidRange range) then ret None else ret (Some range)
    end.

(** *** Testing a capture *)

(** The [for (let key in props)] loop of [test].  Keys that are no declared
    test are passed over, as the source passes over every key that is not [in]
    the table; on an inherited-name key the source calls the inherited
    function instead, which the embedding does not follow. *)
Fixpoint runTests (existingData : option Props) (props : Props) (node : SyntaxNode)
    (remaining : Props) (this : ScopeResolver) : Completion bool :=
  match remaining with
  | [] => Normal true
  | (key, value) :: remaining' =>
      match table_get TESTS key with
      | None => runTests existingData props node remaining' this
      | Some test =>
          try! passed := test node value props existingData this in
          if negb passed then Normal false
          else runTests existingData props node remaining' this
      end
  end.

Definition test (existingData : option Props) (props : Props) (node : SyntaxNode)
    (this : ScopeResolver) : Completion bool :=
  if existing_final existingData then Normal false
  else runTests existingData props node props this.

(** *** Boundaries *)

Definition emptyBundle : Bundle := {| open := []; close := [] |}.

Definition with_map (m : gmap string Bundle) (this : ScopeResolver) : ScopeResolver :=
  {| languageLayer := languageLayer this;
     buffer := buffer this;
     idForScope := idForScope this;
     map := m;
     rangeData := rangeData this;
     patternCache := patternCache this;
     allocated := allocated this |}.

Definition setBoundary (point : Point) (id : ScopeId) (which : Which) (root : bool)
    (this : ScopeResolver) : ScopeResolver :=
  let key := _keyForPoint point in
  let bundle := default emptyBundle (map this !! key) in
  let bundle' :=
    match which with
    | which_open =>
        if root then {| open := id :: open bundle; close := close bundle |}
        else {| open := open bundle ++ [id]; close := close bundle |}
    | which_close =>
        if root then {| open := open bundle; close := close bundle ++ [id] |}
        else {| open := open bundle; close := id :: close bundle |}
    end in
  with_map (<[key := bundle']> (map this)) this.

(** *** Storing a capture *)

(** The name that keeps a capture's scope out of the boundaries. *)
Definition IGNORE : string := "_IGNORE_".

(** [name.includes('_TEXT_') && !node.text.includes(' ')], and the two
    [replace] calls. *)
Definition interpolateName (name : string) (node : SyntaxNode) : string :=
  let name :=
    if includes name "_TEXT_" && negb (includes (text node) " ")
    then replace name "_TEXT_" (text node)
    else name in
  replace name "_TYPE_" (type node).

(** [store] answers [false] ([None]) or the range it stored. *)
Definition store (syntax : Capture) : M (option Range) :=
  let node := node syntax in
  let props := setProperties syntax in
  let name := interpolateName (name syntax) node in
  do! range := determineCaptureRange syntax in
  match range with
  | None => ret None
  | Some range =>
      fun this =>
        let data := getDataForRange this range in
        match test data props node this with
        | Throw e => (Throw e, this)
        | Normal false => (Normal None, this)
        | Normal true =>
            let this := setDataForRange range props this in
            if bool_decide (name = IGNORE) then (Normal None, this)
            else
              let id := idForScope this name in
              let this := setBoundary (range_startPosition range) id which_open false this in
              let this := setBoundary (range_endPosition range) id which_close false this in
              (Normal (Some range), this)
        end
  end.

Definition reset (this : ScopeResolver) : ScopeResolver :=
  {| languageLayer := languageLayer this;
     buffer := buffer this;
     idForScope := idForScope this;
     map := ∅;
     rangeData := ∅;
     patternCache := patternCache this;
     allocated := allocated this |}.

(** [new Point(Number(row), Number(column))]; [None] when a coordinate is
    [NaN]. *)
Definition _keyToObject (key : string) : option Point :=
  match split key "," with
  | row :: column :: _ =>
      match ToNumber engine row, ToNumber engine column with
      | Some r, Some c => Some (mkPoint r c)
      | _, _ => None
      end
  | _ => None
  end.

(** The pairs the iterator yields, in no particular order (the consumer
    orders them). *)
Definition boundaries (this : ScopeResolver) : list (option Point * Bundle) :=
  (fun entry => (_keyToObject (fst entry), snd entry)) <$> map_to_list (map this).

End Resolver.

Arguments Bundle : clear implicits.
Arguments ScopeResolver : clear implicits.
Arguments M : clear implicits.
Arguments ADJUSTMENTS : simpl never.
Arguments TESTS : simpl never.

(** ** Vocabulary of the properties *)

Section Vocabulary.

Context {ScopeId : Type}.
Variable engine : Engine.

Abbreviation Resolver := (ScopeResolver ScopeId).

(** Everything but the pattern cache (and the count of compiled patterns) is
    the same in both instances, and the pattern cache has lost nothing. *)
Definition untouched (this this' : Resolver) : Prop :=
  languageLayer this' = languageLayer this /\
  buffer this' = buffer this /\
  idForScope this' = idForScope this /\
  map this' = map this /\
  rangeData this' = rangeData this /\
  patternCache this ⊆ patternCache this'.

(** The bundle at a position, and its two lists. *)
Definition bundleAt (this : Resolver) (point : Point) : option (Bundle ScopeId) :=
  map this !! _keyForPoint point.

Definition openAt (this : Resolver) (point : Point) : list ScopeId :=
  from_option open [] (bundleAt this point).

Definition closeAt (this : Resolver) (point : Point) : list ScopeId :=
  from_option close [] (bundleAt this point).

(** The instance after [store] was called on each capture in turn. *)
Definition storeAll (captures : list Capture) (this : Resolver) : Resolver :=
  fold_left (fun this capture => snd (store engine capture this)) captures this.

(** The capture resolves to [range] and passes its tests: [store] goes on to
    record it. *)
Definition accepts (capture : Capture) (this : Resolver)
    (range : Range) (this' : Resolver) : Prop :=
  determineCaptureRange engine capture this = (Normal (Some range), this') /\
  test (getDataForRange this' range) (setProperties capture) (node capture) this'
    = Normal true.

(** The capture resolves to [range]. *)
Definition resolvesTo (capture : Capture) (this : Resolver)
    (range : Range) (this' : Resolver) : Prop :=
  determineCaptureRange engine capture this = (Normal (Some range), this').

(** The metadata recorded under [key] has a truthy [final]. *)
Definition finalAt (key : string) (this : Resolver) : Prop :=
  exists data, rangeData this !! key = Some data /\ props_truthy data "final" = true.

(** The scope id [store] registers for a capture. *)
Definition scopeOf (this : Resolver) (capture : Capture) : ScopeId :=
  idForScope this (interpolateName (name capture) (node capture)).

(** The four adjustments that check a position against the node. *)
Definition positional (key : string) : bool :=
  bool_decide (key = "startAt") || bool_decide (key = "endAt") ||
  bool_decide (key = "offsetStart") || bool_decide (key = "offsetEnd").

Definition isOffset (key : string) : bool :=
  bool_decide (key = "offsetStart") || bool_decide (key = "offsetEnd").

(** The position a positional adjustment resolves, given the range the
    earlier adjustments left: [start], [end] and [offsetPosition] in the
    source. *)
Definition resolvedPosition (key value : string) (node : SyntaxNode)
    (range : Range) (this : Resolver) : option Point :=
  if bool_decide (key = "startAt") || bool_decide (key = "endAt") then
    match resolveNodePosition node value with
    | Normal (JPoint p) => Some p
    | _ => None
    end
  else if bool_decide (key = "offsetStart") then
    (fun offset => adjustPositionByOffset this (range_startPosition range) offset)
      <$> ToNumber engine value
  else if bool_decide (key = "offsetEnd") then
    (fun offset => adjustPositionByOffset this (range_endPosition range) offset)
      <$> ToNumber engine value
  else None.

(** The answer of a test, negated; an error stays the error it is. *)
Definition negated (c : Completion bool) : Completion bool :=
  match c with
  | Normal b => Normal (negb b)
  | Throw e => Throw e
  end.

(** The key is a declared adjustment; the key is a declared test.  For a
    key that is not an inherited name these are
    [key in ScopeResolver.ADJUSTMENTS] and [key in ScopeResolver.TESTS]. *)
Definition isAdjustment (key : string) : bool :=
  bool_decide (is_Some (table_get (@ADJUSTMENTS ScopeId engine) key)).

Definition isTest (key : string) : bool :=
  bool_decide (is_Some (table_get (@TESTS ScopeId) key)).

(** The directives of a capture that are adjustments, and those that are
    tests, in key order. *)
Definition adjustmentsOf (props : Props) : Props :=
  List.filter (fun entry => isAdjustment (fst entry)) props.

Definition testsOf (props : Props) : Props :=
  List.filter (fun entry => isTest (fst entry)) props.

(** The tests that come in pairs, one the opposite of the other. *)
Definition opposites : list (string * string) :=
  [ ("onlyIfFirst", "onlyIfNotFirst");
    ("onlyIfLast", "onlyIfNotLast");
    ("onlyIfLastTextOnRow", "onlyIfNotLastTextOnRow");
    ("onlyIfDescendantOfType", "onlyIfNotDescendantOfType");
    ("onlyIfAncestorOfType", "onlyIfNotAncestorOfType");
    ("onlyIfDescendantOfNodeWithData", "onlyIfNotDescendantOfNodeWithData");
    ("onlyIfOnSameRowAs", "onlyIfNotOnSameRowAs") ].

(** The five adjustments that look for the first match of a pattern. *)
Definition matching (key : string) : bool :=
  bool_decide (key = "startAndEndAroundFirstMatchOf") ||
  bool_decide (key = "startBeforeFirstMatchOf") ||
  bool_decide (key = "startAfterFirstMatchOf") ||
  bool_decide (key = "endBeforeFirstMatchOf") ||
  bool_decide (key = "endAfterFirstMatchOf").

(** Both ends of the range lie within the node. *)
Definition withinNode (node : SyntaxNode) (range : Range) : Prop :=
  isBetweenPoints (range_startPosition range) (startPosition node) (endPosition node)
    = true /\
  isBetweenPoints (range_endPosition range) (startPosition node) (endPosition node)
    = true.

(** The number of open entries, and of close entries, in the whole boundary
    map. *)
Definition openCount (this : Resolver) : nat :=
  map_fold (fun _ bundle n => (length (open bundle) + n)%nat) 0%nat (map this).

Definition closeCount (this : Resolver) : nat :=
  map_fold (fun _ bundle n => (length (close bundle) + n)%nat) 0%nat (map this).

(** Every cached [RegExp] was built from the string it is filed under, was
    built before now, and no two cache entries hold the same object. *)
Definition cacheConsistent (this : Resolver) : Prop :=
  forall pattern regex,
    patternCache this !! pattern = Some regex ->
    source regex = pattern /\
    (regexp_id regex < allocated this)%nat /\
    forall pattern' regex',
      patternCache this !! pattern' = Some regex' ->
      regexp_id regex' = regexp_id regex -> pattern' = pattern.

(** The same pair of indices. *)
Definition sameIndices (r r' : Range) : Prop :=
  range_startIndex r = range_startIndex r' /\ range_endIndex r = range_endIndex r'.

Global Instance sameIndices_dec r r' : Decision (sameIndices r r').
Proof. unfold sameIndices. apply _. Defined.

End Vocabulary.

(** ** A small world to run the resolver in *)

Module Fixture.

(** A buffer holding one line of text. *)
Definition clampColumn (line : string) (c : Z) : Z :=
  Z.max 0 (Z.min c (Z.of_nat (String.length line))).

Definition oneLineBuffer (line : string) : Buffer :=
  {| positionForCharacterIndex := fun index => mkPoint 0 index;
     characterIndexForPosition := fun position => column position;
     clipPosition := fun position => mkPoint 0 (clampColumn line (column position));
     lineForRow := fun r => if r =? 0 then Some line else None |}.

Definition layer (line : string) : LanguageLayer :=
  {| depth := 0; layer_buffer := oneLineBuffer line |}.

(** Decimal integers, as [Number] reads them; anything else is [NaN]. *)
Definition digitValue (c : ascii) : option Z :=
  let n := Ascii.nat_of_ascii c in
  if bool_decide (48 <= n <= 57)%nat then Some (Z.of_nat n - 48) else None.

Fixpoint digits (acc : Z) (s : string) : option Z :=
  match s with
  | EmptyString => Some acc
  | String c s' =>
      match digitValue c with
      | Some d => digits (10 * acc + d) s'
      | None => None
      end
  end.

Definition decimal (s : string) : option Z :=
  match s with
  | EmptyString => Some 0
  | String c s' =>
      if bool_decide (c = "-"%char) then
        if bool_decide (s' = EmptyString) then None else Z.opp <$> digits 0 s'
      else if bool_decide (c = "+"%char) then
        if bool_decide (s' = EmptyString) then None else digits 0 s'
      else digits 0 s
  end.

(** Patterns without metacharacters: the first occurrence of the pattern. *)
Definition literalMatch (pattern text : string) : option (Z * string) :=
  (fun i => (Z.of_nat i, pattern)) <$> indexOf text pattern.

Definition engine : Engine :=
  {| ToNumber := decimal;
     RegExp_valid := fun _ => true;
     RegExp_exec := literalMatch |}.

(** The line under study and a few of its nodes. *)
Definition line : string := "let x = $$;".

Definition nodeOn (id : Z) (type text : string) (from to : Z)
    (parent : option SyntaxNode) : SyntaxNode :=
  {| id := id; type := type; text := text;
     startPosition := mkPoint 0 from; endPosition := mkPoint 0 to;
     startIndex := from; endIndex := to;
     hasError := false;
     parent := parent;
     children := [];
     descendantsOfType := fun _ => [] |}.

Definition statement : SyntaxNode := nodeOn 1 "lexical_declaration" line 0 11 None.
Definition identifier : SyntaxNode := nodeOn 2 "identifier" "x" 4 5 (Some statement).
Definition dollars : SyntaxNode := nodeOn 3 "identifier" "$$" 8 10 (Some statement).
(** A zero-width node, such as tree-sitter inserts for a missing token. *)
Definition missing : SyntaxNode := nodeOn 4 "identifier" EmptyString 8 8 (Some statement).

(** A fresh resolver with the default [idForScope]. *)
Definition fresh : ScopeResolver string := constructor (layer line) (fun x => x).

Definition run {A} (m : M string A) (this : ScopeResolver string) : ScopeResolver string :=
  snd (m this).

Definition result {A} (m : M string A) (this : ScopeResolver string) : Completion A :=
  fst (m this).

(** Captures on these nodes. *)
Definition capture (node : SyntaxNode) (name : string) (props : Props) : Capture :=
  {| node := node; name := name; setProperties := props |}.

Definition extent (n : SyntaxNode) : Range := node_range n.

(** [final] set to [true], and to the empty string, on the identifier. *)
Definition finalTrue : Capture := capture identifier "keyword" [("final", "true")].
Definition finalEmpty : Capture := capture identifier "keyword" [("final", EmptyString)].
Definition plain : Capture := capture identifier "variable" [].
Definition whole : Capture := capture statement "source" [].
Definition shyOne : Capture := capture identifier "variable.shy" [("shy", "true")].
Definition first : Capture := capture identifier "first" [("a", "1")].
Definition second : Capture := capture identifier "second" [("b", "2")].
Definition scopeA : Capture := capture identifier "a" [].
Definition scopeB : Capture := capture identifier "b" [].
Definition scopeC : Capture := capture identifier "c" [].
Definition ignored : Capture := capture identifier "_IGNORE_" [("kind", "local")].
Definition zeroWidth : Capture := capture missing "missing" [].
Definition startAtParent : Capture :=
  capture identifier "variable" [("startAt", "parent.startPosition")].
Definition offsetX : Capture := capture identifier "variable" [("offsetStart", "x")].
Definition offsetXThenStartAt : Capture :=
  capture identifier "variable"
    [("offsetStart", "x"); ("startAt", "parent.startPosition")].
Definition startAtThenOffsetX : Capture :=
  capture identifier "variable"
    [("startAt", "parent.startPosition"); ("offsetStart", "x")].
Definition noMatch : Capture :=
  capture statement "operator" [("startAndEndAroundFirstMatchOf", "zzz")].
Definition aroundEquals : Capture :=
  capture statement "operator" [("startAndEndAroundFirstMatchOf", "=")].

(** More captures: a directive that is no directive, a narrowing offset, and
    a suppressed capture of the whole statement. *)
Definition withNote : Capture := capture identifier "variable" [("note", "x")].
Definition narrowed : Capture := capture statement "tail" [("offsetStart", "4")].
Definition ignoredStatement : Capture :=
  capture statement "_IGNORE_" [("kind", "declaration")].

(** A parent with three children: a comment, an identifier, a comment. *)
Definition firstComment : SyntaxNode := nodeOn 11 "comment" "a" 0 1 None.
Definition onlyName : SyntaxNode := nodeOn 12 "identifier" "b" 1 2 None.
Definition lastComment : SyntaxNode := nodeOn 13 "comment" "c" 2 3 None.

Definition family : SyntaxNode :=
  {| id := 10; type := "block"; text := "abc";
     startPosition := mkPoint 0 0; endPosition := mkPoint 0 3;
     startIndex := 0; endIndex := 3;
     hasError := false;
     parent := None;
     children := [firstComment; onlyName; lastComment];
     descendantsOfType := fun _ => [] |}.

(** The last comment, seen from inside the tree. *)
Definition trailing : SyntaxNode := nodeOn 13 "comment" "c" 2 3 (Some family).

Definition bar : SyntaxNode := nodeOn 5 "identifier" "bar" 0 3 None.
Definition aSpaceB : SyntaxNode := nodeOn 6 "binary_expression" "a b" 0 3 None.

(** Instances reached by storing some of these captures. *)
Definition afterFinalTrue : ScopeResolver string :=
  storeAll engine [whole] (run (store engine finalTrue) fresh).
Definition afterFinalEmpty : ScopeResolver string := run (store engine finalEmpty) fresh.
Definition afterFirst : ScopeResolver string := run (store engine first) fresh.
Definition afterPlain : ScopeResolver string := run (store engine plain) fresh.
Definition afterA : ScopeResolver string := run (store engine scopeA) fresh.
Definition afterAB : ScopeResolver string := run (store engine scopeB) afterA.
Definition afterABC : ScopeResolver string := run (store engine scopeC) afterAB.
Definition afterAroundEquals : ScopeResolver string := run (store engine aroundEquals) fresh.
Definition afterNoMatch : ScopeResolver string := run (store engine noMatch) fresh.

End Fixture.

(** ** Properties *)

(** *** The string keys stand for the pairs they are built from *)

Section Keys.

Variable separator : ascii.
Hypothesis not_a_digit : forall d, pretty_N_char d <> separator.
Hypothesis not_a_minus : "-"%char <> separator.

Lemma avoids_pretty_N_go x :
  forall s, avoids separator s = true -> avoids separator (pretty_N_go x s) = true.
Proof.
  induction (N.lt_wf_0 x) as [x _ IH]. intros s Hs.
  destruct (decide (0 < x)%N) as [Hpos|Hzero].
  - rewrite pretty_N_go_step by done.
    apply IH; [by apply N.div_lt|].
    cbn [avoids]. rewrite Hs, bool_decide_eq_false_2 by apply not_a_digit. done.
  - replace x with 0%N by lia. by rewrite pretty_N_go_0.
Qed.

Lemma avoids_pretty_N (x : N) : avoids separator (pretty x) = true.
Proof.
  unfold pretty, pretty_N. case_decide.
  - cbn [avoids]. rewrite bool_decide_eq_false_2; [done|].
    apply (not_a_digit 0).
  - by apply avoids_pretty_N_go.
Qed.

Lemma avoids_pretty_Z (x : Z) : avoids separator (pretty x) = true.
Proof.
  destruct x as [|x|x]; unfold pretty, pretty_Z.
  - apply (avoids_pretty_N 0).
  - apply (avoids_pretty_N (N.pos x)).
  - change ("-" +:+ pretty x) with (String "-" (pretty (N.pos x))).
    cbn [avoids]. rewrite bool_decide_eq_false_2 by apply not_a_minus.
    apply (avoids_pretty_N (N.pos x)).
Qed.

Lemma separated_inj a a' b b' :
  avoids separator a = true ->
  avoids separator a' = true ->
  a +:+ String separator b = a' +:+ String separator b' ->
  a = a' /\ b = b'.
Proof.
  revert a'. induction a as [|c a IH]; intros [|c' a'] Ha Ha' Heq; simpl in *.
  - by injection Heq.
  - injection Heq as <- _. by rewrite bool_decide_eq_true_2 in Ha'.
  - injection Heq as -> _. by rewrite bool_decide_eq_true_2 in Ha.
  - injection Heq as -> Heq.
    apply andb_prop in Ha as [_ Ha]. apply andb_prop in Ha' as [_ Ha'].
    destruct (IH a' Ha Ha' Heq) as [-> ->]. done.
Qed.

Lemma separated_pretty_inj (x x' y y' : Z) :
  pretty x +:+ String separator (pretty y) = pretty x' +:+ String separator (pretty y') ->
  x = x' /\ y = y'.
Proof.
  intros H. apply separated_inj in H as [Hx Hy]; try apply avoids_pretty_Z.
  split; by apply (inj pretty).
Qed.

End Keys.

(** Two positions have the same key only if they are the same position. *)
Lemma _keyForPoint_inj p q : _keyForPoint p = _keyForPoint q -> p = q.
Proof.
  destruct p as [r c], q as [r' c']. unfold _keyForPoint. simpl. intros H.
  apply (separated_pretty_inj ","%char) in H as [-> ->]; [done| |done].
  intros d. unfold pretty_N_char. by repeat case_match.
Qed.

(** Two ranges have the same key exactly when their indices agree. *)
Lemma _keyForRange_inj r r' :
  _keyForRange r = _keyForRange r' <->
  range_startIndex r = range_startIndex r' /\ range_endIndex r = range_endIndex r'.
Proof.
  unfold _keyForRange. split; [|by intros [-> ->]]. intros H.
  apply (separated_pretty_inj "/"%char) in H; [done| |done].
  intros d. unfold pretty_N_char. by repeat case_match.
Qed.

Section Properties.

Context {ScopeId : Type}.
Variable engine : Engine.

Abbreviation Resolver := (ScopeResolver ScopeId).

Implicit Types (this s : Resolver) (capture c : Capture) (range r : Range).

(** *** Points *)

Lemma comparePoints_antisym a b : comparePoints b a = - comparePoints a b.
Proof. unfold comparePoints. repeat case_match; lia. Qed.

Lemma comparePoints_zero a b : comparePoints a b = 0 -> a = b.
Proof.
  destruct a as [ra ca], b as [rb cb]. unfold comparePoints. simpl.
  case_match; intros; f_equal; lia.
Qed.

(** Containment does not depend on the order of the two ends. *)
Lemma isBetweenPoints_sym point a b :
  isBetweenPoints point a b = isBetweenPoints point b a.
Proof.
  unfold isBetweenPoints. rewrite (comparePoints_antisym a b).
  destruct (Z.compare_spec (comparePoints a b) 0) as [Heq|Hlt|Hgt].
  - apply comparePoints_zero in Heq as ->. by repeat case_match.
  - replace (comparePoints a b >? 0) with false by lia.
    replace (- comparePoints a b >? 0) with true by lia. reflexivity.
  - replace (comparePoints a b >? 0) with true by lia.
    replace (- comparePoints a b >? 0) with false by lia. reflexivity.
Qed.

(** A node's own ends are within the node. *)
Lemma isBetweenPoints_ends a b :
  isBetweenPoints a a b = true /\ isBetweenPoints b a b = true.
Proof.
  unfold isBetweenPoints.
  pose proof (comparePoints_antisym a b).
  assert (comparePoints a a = 0) by (unfold comparePoints; case_match; lia).
  assert (comparePoints b b = 0) by (unfold comparePoints; case_match; lia).
  destruct (comparePoints a b >? 0) eqn:Hc; split; lia.
Qed.

(** *** Frame lemmas: what range resolution can write to *)

Lemma untouched_refl s : untouched s s.
Proof. by repeat split. Qed.

Lemma untouched_trans s1 s2 s3 :
  untouched s1 s2 -> untouched s2 s3 -> untouched s1 s3.
Proof.
  intros (? & ? & ? & ? & ? & ?) (? & ? & ? & ? & ? & ?).
  repeat split; try congruence. by etrans.
Qed.

Lemma getOrCompilePattern_untouched pattern s :
  untouched s (snd (getOrCompilePattern engine pattern s)).
Proof.
  unfold getOrCompilePattern.
  destruct (patternCache s !! pattern) eqn:Hcached; [apply untouched_refl|].
  destruct (RegExp_valid engine pattern); [|apply untouched_refl].
  repeat split. simpl. by apply insert_subseteq.
Qed.

Lemma getOrCompilePattern_buffer pattern s :
  buffer (snd (getOrCompilePattern engine pattern s)) = buffer s.
Proof. apply getOrCompilePattern_untouched. Qed.

Ltac match_adjustment :=
  unfold bind;
  match goal with
  | |- context [getOrCompilePattern ?e ?p ?s] =>
      let H := fresh "Hu" in
      pose proof (getOrCompilePattern_untouched p s) as H;
      destruct (getOrCompilePattern e p s) as [[regex|exn] s']; simpl in *;
      [destruct (matchText _ _ regex)|]; simpl; exact H
  end.

Lemma adjustment_untouched key adjust node value props range s :
  table_get (ADJUSTMENTS engine) key = Some adjust ->
  untouched s (snd (adjust node value props range s)).
Proof.
  intros H. unfold ADJUSTMENTS in H. simpl in H.
  repeat (case_bool_decide; [injection H as <-|]); try discriminate.
  - unfold startAt. destruct (positionWithin node value); apply untouched_refl.
  - unfold endAt. destruct (positionWithin node value); apply untouched_refl.
  - unfold offsetStart. destruct (ToNumber engine value); [|apply untouched_refl].
    simpl. case_match; apply untouched_refl.
  - unfold offsetEnd. destruct (ToNumber engine value); [|apply untouched_refl].
    simpl. case_match; apply untouched_refl.
  - unfold startAndEndAroundFirstMatchOf. match_adjustment.
  - unfold startBeforeFirstMatchOf. match_adjustment.
  - unfold startAfterFirstMatchOf. match_adjustment.
  - unfold endBeforeFirstMatchOf. match_adjustment.
  - unfold endAfterFirstMatchOf. match_adjustment.
Qed.

Lemma applyAdjustments_cons node props key value remaining range :
  applyAdjustments engine node props ((key, value) :: remaining) range =
  match table_get (@ADJUSTMENTS ScopeId engine) key with
  | None => applyAdjustments engine node props remaining range
  | Some adjust =>
      bind (adjust node value props range)
        (fun adjusted =>
           match adjusted with
           | None => ret None
           | Some range' => applyAdjustments engine node props remaining range'
           end)
  end.
Proof. reflexivity. Qed.

Lemma applyAdjustments_untouched node props remaining :
  forall range s,
    untouched s (snd (applyAdjustments engine node props remaining range s)).
Proof.
  induction remaining as [|[key value] remaining IH]; intros range s.
  - apply untouched_refl.
  - rewrite applyAdjustments_cons.
    destruct (table_get (@ADJUSTMENTS ScopeId engine) key) as [adjust|] eqn:Hkey;
      [|apply IH].
    pose proof (adjustment_untouched key adjust node value props range s Hkey) as Hu.
    unfold bind.
    destruct (adjust node value props range s) as [[[range'|]|exn] s']; simpl in *.
    + eapply untouched_trans; [exact Hu | apply IH].
    + exact Hu.
    + exact Hu.
Qed.

Lemma determineCaptureRange_untouched c s :
  untouched s (snd (determineCaptureRange engine c s)).
Proof.
  unfold determineCaptureRange.
  destruct (negb (adjustsCaptureRange engine c)); [apply untouched_refl|].
  unfold bind.
  pose proof (applyAdjustments_untouched (node c) (setProperties c) (setProperties c)
                (node_range (node c)) s) as Hu.
  destruct (applyAdjustments engine (node c) (setProperties c) (setProperties c)
              (node_range (node c)) s) as [[[range|]|exn] s']; simpl in *; try exact Hu.
  destruct (negb (isValidRange range)); exact Hu.
Qed.

Lemma determineCaptureRange_stores c s o s0 :
  determineCaptureRange engine c s = (o, s0) ->
  map s0 = map s /\ rangeData s0 = rangeData s.
Proof.
  intros H. pose proof (determineCaptureRange_untouched c s) as Hu.
  rewrite H in Hu. destruct Hu as (_ & _ & _ & ? & ? & _). by split.
Qed.

(** *** [store], case by case *)

Lemma store_unfold c s :
  store engine c s =
  match determineCaptureRange engine c s with
  | (Throw e, s0) => (Throw e, s0)
  | (Normal None, s0) => (Normal None, s0)
  | (Normal (Some range), s0) =>
      match test (getDataForRange s0 range) (setProperties c) (node c) s0 with
      | Throw e => (Throw e, s0)
      | Normal false => (Normal None, s0)
      | Normal true =>
          let s1 := setDataForRange range (setProperties c) s0 in
          if bool_decide (interpolateName (name c) (node c) = IGNORE)
          then (Normal None, s1)
          else
            (Normal (Some range),
             setBoundary (range_endPosition range) (scopeOf s c) which_close false
               (setBoundary (range_startPosition range) (scopeOf s c) which_open false s1))
      end
  end.
Proof.
  unfold store, bind.
  pose proof (determineCaptureRange_untouched c s) as Hu.
  destruct (determineCaptureRange engine c s) as [[[range|]|exn] s0]; try reflexivity.
  destruct Hu as (_ & _ & Hid & _). simpl in Hid.
  unfold scopeOf. rewrite <- Hid. reflexivity.
Qed.

Lemma store_no_range c s s0 :
  determineCaptureRange engine c s = (Normal None, s0) ->
  store engine c s = (Normal None, s0).
Proof. intros H. rewrite store_unfold, H. reflexivity. Qed.

Lemma store_range_throws c s e s0 :
  determineCaptureRange engine c s = (Throw e, s0) ->
  store engine c s = (Throw e, s0).
Proof. intros H. rewrite store_unfold, H. reflexivity. Qed.

Lemma store_test_fails c s range s0 :
  resolvesTo engine c s range s0 ->
  test (getDataForRange s0 range) (setProperties c) (node c) s0 = Normal false ->
  store engine c s = (Normal None, s0).
Proof. intros H Ht. rewrite store_unfold, H, Ht. reflexivity. Qed.

Lemma store_test_throws c s range s0 e :
  resolvesTo engine c s range s0 ->
  test (getDataForRange s0 range) (setProperties c) (node c) s0 = Throw e ->
  store engine c s = (Throw e, s0).
Proof. intros H Ht. rewrite store_unfold, H, Ht. reflexivity. Qed.

Lemma store_accepted c s range s0 :
  accepts engine c s range s0 ->
  store engine c s =
    let s1 := setDataForRange range (setProperties c) s0 in
    if bool_decide (interpolateName (name c) (node c) = IGNORE)
    then (Normal None, s1)
    else
      (Normal (Some range),
       setBoundary (range_endPosition range) (scopeOf s c) which_close false
         (setBoundary (range_startPosition range) (scopeOf s c) which_open false s1)).
Proof. intros [H Ht]. rewrite store_unfold, H, Ht. reflexivity. Qed.

(** A call that answers a range accepted the capture. *)
Lemma store_returns_range c s range s' :
  store engine c s = (Normal (Some range), s') ->
  exists s0,
    accepts engine c s range s0 /\
    interpolateName (name c) (node c) <> IGNORE /\
    s' = setBoundary (range_endPosition range) (scopeOf s c) which_close false
           (setBoundary (range_startPosition range) (scopeOf s c) which_open false
              (setDataForRange range (setProperties c) s0)).
Proof.
  rewrite store_unfold.
  destruct (determineCaptureRange engine c s) as [[[range0|]|exn] s0] eqn:Hr;
    try discriminate.
  destruct (test _ _ _ s0) as [[|]|] eqn:Ht; try discriminate.
  simpl. case_bool_decide as Hn; [discriminate|].
  intros [= <- <-]. exists s0. by repeat split.
Qed.

(** The fields [store] never writes. *)
Lemma store_fixed_fields c s :
  languageLayer (snd (store engine c s)) = languageLayer s /\
  buffer (snd (store engine c s)) = buffer s /\
  idForScope (snd (store engine c s)) = idForScope s.
Proof.
  rewrite store_unfold.
  pose proof (determineCaptureRange_untouched c s) as Hu.
  destruct (determineCaptureRange engine c s) as [[[range|]|exn] s0];
    destruct Hu as (? & ? & ? & _); simpl in *; try by repeat split.
  destruct (test _ _ _ s0) as [[|]|]; simpl; try by repeat split.
  case_bool_decide; simpl; by repeat split.
Qed.

(** The pattern cache never loses a pattern to [store]. *)
Lemma store_keeps_patterns c s :
  patternCache s ⊆ patternCache (snd (store engine c s)).
Proof.
  rewrite store_unfold.
  pose proof (determineCaptureRange_untouched c s) as Hu.
  destruct (determineCaptureRange engine c s) as [[[range|]|exn] s0];
    destruct Hu as (_ & _ & _ & _ & _ & Hcache); simpl in *; try done.
  destruct (test _ _ _ s0) as [[|]|]; simpl; try done.
  case_bool_decide; done.
Qed.

Lemma storeAll_keeps_patterns captures :
  forall s, patternCache s ⊆ patternCache (storeAll engine captures s).
Proof.
  induction captures as [|c captures IH]; intros s; [done|].
  simpl. etrans; [apply store_keeps_patterns | apply IH].
Qed.

(** What [getOrCompilePattern] answers is in the cache afterwards. *)
Lemma getOrCompilePattern_caches pattern s regex s' :
  getOrCompilePattern engine pattern s = (Normal regex, s') ->
  patternCache s' !! pattern = Some regex.
Proof.
  unfold getOrCompilePattern.
  destruct (patternCache s !! pattern) as [cached|] eqn:Hcached.
  - by intros [= <- <-].
  - destruct (RegExp_valid engine pattern); [|discriminate].
    intros [= <- <-]. simpl. by rewrite lookup_insert_eq.
Qed.

(** *** Metadata under a key *)

Lemma rangeData_setBoundary point id which root s :
  rangeData (setBoundary point id which root s) = rangeData s.
Proof. reflexivity. Qed.

Lemma map_setDataForRange range props s :
  map (setDataForRange range props s) = map s.
Proof. reflexivity. Qed.

Lemma rangeData_setDataForRange range props s :
  rangeData (setDataForRange range props s) = <[_keyForRange range := props]> (rangeData s).
Proof. reflexivity. Qed.

(** What [store] leaves in the metadata store. *)
Lemma store_rangeData c s :
  rangeData (snd (store engine c s)) = rangeData s \/
  exists range s0,
    accepts engine c s range s0 /\
    rangeData (snd (store engine c s)) =
      <[_keyForRange range := setProperties c]> (rangeData s).
Proof.
  rewrite store_unfold.
  destruct (determineCaptureRange engine c s) as [[[range|]|exn] s0] eqn:Hr;
    destruct (determineCaptureRange_stores _ _ _ _ Hr) as [Hm Hd]; simpl;
    try (by left).
  destruct (test _ _ _ s0) as [[|]|] eqn:Ht; simpl; try (by left).
  right. exists range, s0. split; [by split|].
  case_bool_decide; simpl; by rewrite Hd.
Qed.

(** A truthy [final] under the key of the resolved range rejects the
    capture before anything is written. *)
Lemma store_on_final c s range s0 :
  finalAt (_keyForRange range) s ->
  resolvesTo engine c s range s0 ->
  store engine c s = (Normal None, s0).
Proof.
  intros (data & Hdata & Hfinal) Hr.
  destruct (determineCaptureRange_stores _ _ _ _ Hr) as [_ Hd].
  apply (store_test_fails _ _ range); [exact Hr|].
  unfold test, getDataForRange. rewrite Hd, Hdata. simpl. by rewrite Hfinal.
Qed.

Lemma store_keeps_final key c s :
  finalAt key s -> finalAt key (snd (store engine c s)).
Proof.
  intros Hf. unfold finalAt.
  destruct (store_rangeData c s) as [->|(range & s0 & Ha & Heq)]; [done|].
  destruct (decide (_keyForRange range = key)) as [<-|Hne].
  - destruct Ha as [Hr _]. rewrite (store_on_final _ _ _ _ Hf Hr). simpl.
    destruct (determineCaptureRange_stores _ _ _ _ Hr) as [_ ->]. exact Hf.
  - destruct Hf as (data & Hdata & Hfinal). exists data. split; [|done].
    rewrite Heq. by rewrite lookup_insert_ne.
Qed.

Lemma storeAll_keeps_final key captures :
  forall s, finalAt key s -> finalAt key (storeAll engine captures s).
Proof.
  induction captures as [|c captures IH]; intros s Hf; [done|].
  simpl. apply IH. by apply store_keeps_final.
Qed.

Lemma store_records c s range s0 :
  accepts engine c s range s0 ->
  rangeData (snd (store engine c s)) !! _keyForRange range = Some (setProperties c).
Proof.
  intros Ha. rewrite (store_accepted _ _ _ _ Ha). simpl.
  case_bool_decide; simpl; by rewrite lookup_insert_eq.
Qed.

(** C1 (as amended).  Once an accepted capture has recorded, for a range,
    metadata whose [final] is truthy, every later [store] of a capture that
    resolves to the same [startIndex/endIndex] key answers [false] and adds
    neither metadata nor boundaries, whatever directives that capture
    carries and whatever was stored in between. *)
Theorem final_rejects_later_captures
    s (A : Capture) rangeA sA (between : list Capture) (B : Capture) rangeB sB :
  accepts engine A s rangeA sA ->
  props_truthy (setProperties A) "final" = true ->
  let s2 := storeAll engine between (snd (store engine A s)) in
  resolvesTo engine B s2 rangeB sB ->
  _keyForRange rangeB = _keyForRange rangeA ->
  store engine B s2 = (Normal None, sB) /\
  map sB = map s2 /\
  rangeData sB = rangeData s2.
Proof.
  intros Ha Hfinal s2 Hr Hkey.
  assert (finalAt (_keyForRange rangeB) s2) as Hf.
  { apply storeAll_keeps_final. rewrite Hkey.
    exists (setProperties A). split; [|done]. by eapply store_records. }
  split; [by apply (store_on_final _ _ rangeB)|].
  by eapply determineCaptureRange_stores.
Qed.

(** C2 (as amended).  The metadata store keeps, for each exact
    ([startIndex], [endIndex]) pair, the [setProperties] of the latest capture
    that claimed it: when a capture has claimed a range and a later capture
    for the same pair of indices passes its own tests (so the first had no
    truthy [final]), the later capture's properties replace the stored
    ones. *)
Theorem later_capture_replaces_metadata
    s (A : Capture) rangeA sA (B : Capture) rangeB sB :
  accepts engine A s rangeA sA ->
  let s1 := snd (store engine A s) in
  accepts engine B s1 rangeB sB ->
  range_startIndex rangeB = range_startIndex rangeA ->
  range_endIndex rangeB = range_endIndex rangeA ->
  rangeData s1 !! _keyForRange rangeA = Some (setProperties A) /\
  rangeData (snd (store engine B s1)) !! _keyForRange rangeA = Some (setProperties B).
Proof.
  intros Ha s1 Hb Hstart Hend.
  assert (_keyForRange rangeB = _keyForRange rangeA) as Hkey
    by (by apply _keyForRange_inj).
  split.
  - by eapply store_records.
  - rewrite <- Hkey. by eapply store_records.
Qed.

(** *** Validation of adjusted ranges *)

Lemma determineCaptureRange_unadjusted c s :
  adjustsCaptureRange (ScopeId:=ScopeId) engine c = false ->
  determineCaptureRange engine c s = (Normal (Some (node_range (node c))), s).
Proof. intros H. unfold determineCaptureRange. by rewrite H. Qed.

Lemma determineCaptureRange_adjusted c s :
  adjustsCaptureRange (ScopeId:=ScopeId) engine c = true ->
  determineCaptureRange engine c s =
  match applyAdjustments engine (node c) (setProperties c) (setProperties c)
          (node_range (node c)) s with
  | (Normal (Some range), s0) =>
      if isValidRange range then (Normal (Some range), s0) else (Normal None, s0)
  | (Normal None, s0) => (Normal None, s0)
  | (Throw e, s0) => (Throw e, s0)
  end.
Proof.
  intros H. unfold determineCaptureRange, bind. rewrite H. simpl.
  destruct (applyAdjustments _ _ _ _ _ s) as [[[range|]|exn] s0]; try reflexivity.
  by destruct (isValidRange range).
Qed.




(** *** Boundary lists *)

Lemma openAt_map s s' point : map s' = map s -> openAt s' point = openAt s point.
Proof. unfold openAt, bundleAt. by intros ->. Qed.

Lemma closeAt_map s s' point : map s' = map s -> closeAt s' point = closeAt s point.
Proof. unfold closeAt, bundleAt. by intros ->. Qed.

Lemma openAt_setBoundary_open at_ id s point :
  openAt (setBoundary at_ id which_open false s) point =
  if decide (_keyForPoint at_ = _keyForPoint point) then openAt s point ++ [id]
  else openAt s point.
Proof.
  unfold openAt, bundleAt, setBoundary. simpl.
  case_decide as Hk.
  - rewrite Hk, lookup_insert_eq. simpl.
    by destruct (map s !! _keyForPoint point).
  - by rewrite lookup_insert_ne.
Qed.

Lemma openAt_setBoundary_close at_ id root s point :
  openAt (setBoundary at_ id which_close root s) point = openAt s point.
Proof.
  unfold openAt, bundleAt, setBoundary. simpl.
  destruct (decide (_keyForPoint at_ = _keyForPoint point)) as [Hk|Hk].
  - rewrite Hk, lookup_insert_eq.
    by destruct root, (map s !! _keyForPoint point).
  - by rewrite lookup_insert_ne.
Qed.

Lemma closeAt_setBoundary_close at_ id s point :
  closeAt (setBoundary at_ id which_close false s) point =
  if decide (_keyForPoint at_ = _keyForPoint point) then id :: closeAt s point
  else closeAt s point.
Proof.
  unfold closeAt, bundleAt, setBoundary. simpl.
  case_decide as Hk.
  - rewrite Hk, lookup_insert_eq. simpl.
    by destruct (map s !! _keyForPoint point).
  - by rewrite lookup_insert_ne.
Qed.

Lemma closeAt_setBoundary_open at_ id root s point :
  closeAt (setBoundary at_ id which_open root s) point = closeAt s point.
Proof.
  unfold closeAt, bundleAt, setBoundary. simpl.
  destruct (decide (_keyForPoint at_ = _keyForPoint point)) as [Hk|Hk].
  - rewrite Hk, lookup_insert_eq.
    by destruct root, (map s !! _keyForPoint point).
  - by rewrite lookup_insert_ne.
Qed.

(** A stored capture opens last at its start and closes first at its end. *)
Lemma store_opens c s range s' :
  store engine c s = (Normal (Some range), s') ->
  openAt s' (range_startPosition range) =
    openAt s (range_startPosition range) ++ [scopeOf s c].
Proof.
  intros H. apply store_returns_range in H as (s0 & [Hr _] & _ & ->).
  rewrite openAt_setBoundary_close, openAt_setBoundary_open.
  rewrite decide_True by done. f_equal.
  apply openAt_map. rewrite map_setDataForRange.
  by eapply determineCaptureRange_stores.
Qed.

Lemma store_closes c s range s' :
  store engine c s = (Normal (Some range), s') ->
  closeAt s' (range_endPosition range) =
    scopeOf s c :: closeAt s (range_endPosition range).
Proof.
  intros H. apply store_returns_range in H as (s0 & [Hr _] & _ & ->).
  rewrite closeAt_setBoundary_close, decide_True by done. f_equal.
  rewrite closeAt_setBoundary_open.
  apply closeAt_map. rewrite map_setDataForRange.
  by eapply determineCaptureRange_stores.
Qed.

Lemma store_scopeOf c s c' : scopeOf (snd (store engine c s)) c' = scopeOf s c'.
Proof.
  unfold scopeOf. by destruct (store_fixed_fields c s) as (_ & _ & ->).
Qed.

(** C4.  Three captures stored successfully in the order A, B, C whose
    ranges start at the same position P add A, B, C, in this order, at the
    end of the open list at P; if their ranges end at the same position Q they
    add C, B, A, in this order, at the front of the close list at Q.  With
    nothing at P and Q beforehand the lists are [A; B; C] and [C; B; A]. *)
Theorem same_position_captures_nest
    s (A B C : Capture) rangeA rangeB rangeC s1 s2 s3 (P Q : Point) :
  store engine A s = (Normal (Some rangeA), s1) ->
  store engine B s1 = (Normal (Some rangeB), s2) ->
  store engine C s2 = (Normal (Some rangeC), s3) ->
  (range_startPosition rangeA = P ->
   range_startPosition rangeB = P ->
   range_startPosition rangeC = P ->
   openAt s3 P = openAt s P ++ [scopeOf s A; scopeOf s B; scopeOf s C]) /\
  (range_endPosition rangeA = Q ->
   range_endPosition rangeB = Q ->
   range_endPosition rangeC = Q ->
   closeAt s3 Q = [scopeOf s C; scopeOf s B; scopeOf s A] ++ closeAt s Q).
Proof.
  intros HA HB HC.
  assert (scopeOf s1 B = scopeOf s B) as HsB.
  { replace s1 with (snd (store engine A s)) by (by rewrite HA).
    apply store_scopeOf. }
  assert (scopeOf s2 C = scopeOf s C) as HsC.
  { replace s2 with (snd (store engine B s1)) by (by rewrite HB).
    rewrite store_scopeOf.
    replace s1 with (snd (store engine A s)) by (by rewrite HA).
    apply store_scopeOf. }
  split.
  - intros PA PB PC.
    apply store_opens in HA, HB, HC. rewrite PA in HA. rewrite PB in HB. rewrite PC in HC.
    rewrite HC, HB, HA, HsB, HsC. by rewrite <- !app_assoc.
  - intros QA QB QC.
    apply store_closes in HA, HB, HC. rewrite QA in HA. rewrite QB in HB. rewrite QC in HC.
    rewrite HC, HB, HA, HsB, HsC. reflexivity.
Qed.

(** C5.  A capture whose interpolated name is [_IGNORE_] and which resolves
    to a range and passes its tests has its properties recorded as that
    range's metadata, while [store] answers [false] and the boundary map is
    left as it was: no open or close entry is added at any position. *)
Theorem ignored_capture_records_metadata_only c s range s0 :
  accepts engine c s range s0 ->
  interpolateName (name c) (node c) = IGNORE ->
  fst (store engine c s) = Normal None /\
  rangeData (snd (store engine c s)) !! _keyForRange range = Some (setProperties c) /\
  map (snd (store engine c s)) = map s /\
  (forall point,
     openAt (snd (store engine c s)) point = openAt s point /\
     closeAt (snd (store engine c s)) point = closeAt s point).
Proof.
  intros Ha Hname.
  assert (map (snd (store engine c s)) = map s) as Hmap.
  { rewrite (store_accepted _ _ _ _ Ha). simpl. rewrite Hname.
    rewrite bool_decide_eq_true_2 by done. simpl.
    destruct Ha as [Hr _]. by eapply determineCaptureRange_stores. }
  split; [|split; [by eapply store_records|split; [done|]]].
  - rewrite (store_accepted _ _ _ _ Ha). simpl.
    by rewrite Hname, bool_decide_eq_true_2.
  - intros point. split; [by apply openAt_map | by apply closeAt_map].
Qed.

(** *** Adjustments in key order *)

Lemma applyAdjustments_app node props pre rest :
  forall range s,
    applyAdjustments engine node props (pre ++ rest) range s =
    match applyAdjustments engine node props pre range s with
    | (Normal (Some range'), s0) => applyAdjustments engine node props rest range' s0
    | (Normal None, s0) => (Normal None, s0)
    | (Throw e, s0) => (Throw e, s0)
    end.
Proof.
  induction pre as [|[key value] pre IH]; intros range s; [reflexivity|].
  rewrite <- app_comm_cons, !applyAdjustments_cons.
  destruct (table_get (@ADJUSTMENTS ScopeId engine) key) as [adjust|]; [|apply IH].
  unfold bind.
  destruct (adjust node value props range s) as [[[range'|]|exn] s']; try reflexivity.
  apply IH.
Qed.

Lemma adjustsCaptureRange_key c pre key value post :
  setProperties c = pre ++ (key, value) :: post ->
  is_Some (table_get (@ADJUSTMENTS ScopeId engine) key) ->
  adjustsCaptureRange (ScopeId:=ScopeId) engine c = true.
Proof.
  intros Hprops Hkey. unfold adjustsCaptureRange. rewrite Hprops.
  rewrite bool_decide_eq_false_2.
  - apply existsb_exists. exists key. split; [|by apply bool_decide_eq_true_2].
    rewrite fmap_app. apply in_or_app. right. by left.
  - rewrite length_fmap, length_app. simpl. lia.
Qed.

Lemma adjustPositionByOffset_buffer s s' position offset :
  buffer s' = buffer s ->
  adjustPositionByOffset s' position offset = adjustPositionByOffset s position offset.
Proof.
  intros H. unfold adjustPositionByOffset, positionToIndex, indexToPosition.
  by rewrite H.
Qed.

(** A positional adjustment whose position lies outside the node throws. *)
Lemma positional_throws key value node props range s p :
  positional key = true ->
  resolvedPosition engine key value node range s = Some p ->
  isBetweenPoints p (startPosition node) (endPosition node) = false ->
  exists adjust,
    table_get (@ADJUSTMENTS ScopeId engine) key = Some adjust /\
    adjust node value props range s = (Throw outOfRange, s).
Proof.
  unfold positional, resolvedPosition. intros Hkey Hp Hout.
  destruct (bool_decide (key = "startAt")) eqn:K1.
  { apply bool_decide_eq_true_1 in K1 as ->. exists startAt. split; [reflexivity|].
    simpl in Hp. unfold startAt, positionWithin.
    destruct (resolveNodePosition node value) as [[]|]; try discriminate.
    injection Hp as ->. simpl. by rewrite Hout. }
  destruct (bool_decide (key = "endAt")) eqn:K2.
  { apply bool_decide_eq_true_1 in K2 as ->. exists endAt. split; [reflexivity|].
    simpl in Hp. unfold endAt, positionWithin.
    destruct (resolveNodePosition node value) as [[]|]; try discriminate.
    injection Hp as ->. simpl. by rewrite Hout. }
  destruct (bool_decide (key = "offsetStart")) eqn:K3.
  { apply bool_decide_eq_true_1 in K3 as ->. exists (offsetStart engine).
    split; [reflexivity|]. simpl in Hp. unfold offsetStart.
    destruct (ToNumber engine value) as [offset|]; [|discriminate].
    injection Hp as <-. by rewrite Hout. }
  destruct (bool_decide (key = "offsetEnd")) eqn:K4; [|discriminate].
  apply bool_decide_eq_true_1 in K4 as ->. exists (offsetEnd engine).
  split; [reflexivity|]. simpl in Hp. unfold offsetEnd.
  destruct (ToNumber engine value) as [offset|]; [|discriminate].
  injection Hp as <-. by rewrite Hout.
Qed.

(** C7 (as amended).  When a capture's adjustments are applied in key order
    and a [startAt], [endAt], [offsetStart] or [offsetEnd] adjustment is
    reached (every earlier adjustment returned a range) whose resolved
    position lies outside the closed interval between the node's
    [startPosition] and [endPosition], the adjustment throws and the error
    propagates out of [store]. *)
Theorem position_outside_node_throws c s pre key value post range s0 p :
  setProperties c = pre ++ (key, value) :: post ->
  positional key = true ->
  applyAdjustments engine (node c) (setProperties c) pre (node_range (node c)) s
    = (Normal (Some range), s0) ->
  resolvedPosition engine key value (node c) range s0 = Some p ->
  isBetweenPoints p (startPosition (node c)) (endPosition (node c)) = false ->
  store engine c s = (Throw outOfRange, s0).
Proof.
  intros Hprops Hkey Hpre Hp Hout.
  destruct (positional_throws key value (node c) (setProperties c) range s0 p
              Hkey Hp Hout) as (adjust & Htable & Hthrow).
  apply store_range_throws.
  rewrite determineCaptureRange_adjusted
    by (eapply adjustsCaptureRange_key; [exact Hprops | by rewrite Htable]).
  rewrite Hprops at 2. rewrite applyAdjustments_app, Hpre.
  rewrite applyAdjustments_cons, Htable. unfold bind. by rewrite Hthrow.
Qed.

(** An offset that is not a number makes the adjustment return [null]. *)
Lemma offset_not_a_number key value node props range s :
  isOffset key = true ->
  ToNumber engine value = None ->
  exists adjust,
    table_get (@ADJUSTMENTS ScopeId engine) key = Some adjust /\
    adjust node value props range s = (Normal None, s).
Proof.
  unfold isOffset. intros Hkey Hnan.
  destruct (bool_decide (key = "offsetStart")) eqn:K1.
  { apply bool_decide_eq_true_1 in K1 as ->. exists (offsetStart engine).
    split; [reflexivity|]. unfold offsetStart. by rewrite Hnan. }
  destruct (bool_decide (key = "offsetEnd")) eqn:K2; [|discriminate].
  apply bool_decide_eq_true_1 in K2 as ->. exists (offsetEnd engine).
  split; [reflexivity|]. unfold offsetEnd. by rewrite Hnan.
Qed.

(** C8 (as amended).  An [offsetStart] or [offsetEnd] adjustment whose value
    is not a number yields [null]; and when no adjustment before it in key
    order throws, [store] answers [false] without raising an error and
    without recording metadata or boundaries. *)
Theorem non_numeric_offset_drops_capture c s pre key value post o s0 :
  setProperties c = pre ++ (key, value) :: post ->
  isOffset key = true ->
  ToNumber engine value = None ->
  applyAdjustments engine (node c) (setProperties c) pre (node_range (node c)) s
    = (Normal o, s0) ->
  (forall range s',
     offsetStart engine (node c) value (setProperties c) range s' = (Normal None, s') /\
     offsetEnd engine (node c) value (setProperties c) range s' = (Normal None, s')) /\
  store engine c s = (Normal None, s0) /\
  map s0 = map s /\
  rangeData s0 = rangeData s.
Proof.
  intros Hprops Hkey Hnan Hpre.
  split.
  { intros range s'. unfold offsetStart, offsetEnd. by rewrite Hnan. }
  assert (determineCaptureRange engine c s = (Normal None, s0)) as Hr.
  { destruct (offset_not_a_number key value (node c) (setProperties c)
                (node_range (node c)) s Hkey Hnan) as (adjust0 & Htable & _).
    rewrite determineCaptureRange_adjusted
      by (eapply adjustsCaptureRange_key; [exact Hprops | by rewrite Htable]).
    rewrite Hprops at 2. rewrite applyAdjustments_app, Hpre.
    destruct o as [range|]; [|reflexivity].
    destruct (offset_not_a_number key value (node c) (setProperties c) range s0
                Hkey Hnan) as (adjust & Htable' & Hnull).
    rewrite applyAdjustments_cons, Htable'. unfold bind. by rewrite Hnull. }
  split; [by apply store_no_range|]. by eapply determineCaptureRange_stores.
Qed.

(** *** [reset] *)

(** C9.  After [reset] the metadata store and the boundary map hold nothing:
    every lookup, by range or by position, finds nothing.  A pattern compiled
    before is still answered from the cache, the very same object, without a
    new [RegExp] being constructed and without a write to the cache.  [reset]
    leaves every other field as it was, and resetting twice is resetting
    once. *)
Theorem reset_clears_stores_keeps_patterns s :
  (forall range, getDataForRange (reset s) range = None) /\
  (forall point, bundleAt (reset s) point = None) /\
  rangeData (reset s) = ∅ /\
  map (reset s) = ∅ /\
  boundaries engine (reset s) = [] /\
  (forall pattern regex,
     patternCache s !! pattern = Some regex ->
     getOrCompilePattern engine pattern (reset s) = (Normal regex, reset s)) /\
  (languageLayer (reset s) = languageLayer s /\
   buffer (reset s) = buffer s /\
   idForScope (reset s) = idForScope s /\
   patternCache (reset s) = patternCache s /\
   allocated (reset s) = allocated s) /\
  reset (reset s) = reset s.
Proof.
  repeat split.
  - intros pattern regex Hcached. unfold getOrCompilePattern. simpl.
    by rewrite Hcached.
Qed.

(** A pattern compiled at some point is answered from the cache, as the same
    object, after any number of [store] calls and a [reset]. *)
Lemma compiled_pattern_survives s pattern regex s1 captures :
  getOrCompilePattern engine pattern s = (Normal regex, s1) ->
  getOrCompilePattern engine pattern (reset (storeAll engine captures s1))
    = (Normal regex, reset (storeAll engine captures s1)).
Proof.
  intros Hcompiled. apply getOrCompilePattern_caches in Hcompiled.
  unfold getOrCompilePattern. simpl.
  by rewrite (lookup_weaken _ _ _ _ Hcompiled (storeAll_keeps_patterns captures s1)).
Qed.

(** *** Rejection *)

(** C10 (as amended).  A capture rejected before the metadata-recording
    step, because its range resolves to nothing or because [test] answers
    [false], makes [store] answer [false] and leaves the boundary map and the
    metadata store (and the layer, the buffer and [idForScope]) exactly as
    they were; a call that changes the boundary map or the metadata store
    accepted its capture.  Only the pattern cache may differ after a
    rejection. *)
Theorem rejection_leaves_stores_alone c s :
  (forall s0,
     determineCaptureRange engine c s = (Normal None, s0) ->
     store engine c s = (Normal None, s0) /\ untouched s s0) /\
  (forall range s0,
     resolvesTo engine c s range s0 ->
     test (getDataForRange s0 range) (setProperties c) (node c) s0 = Normal false ->
     store engine c s = (Normal None, s0) /\ untouched s s0) /\
  (map (snd (store engine c s)) <> map s \/
   rangeData (snd (store engine c s)) <> rangeData s ->
   exists range s0, accepts engine c s range s0).
Proof.
  pose proof (determineCaptureRange_untouched c s) as Hu.
  split; [|split].
  - intros s0 Hr. split; [by apply store_no_range|]. by rewrite Hr in Hu.
  - intros range s0 Hr Ht. split; [by eapply store_test_fails|].
    unfold resolvesTo in Hr. by rewrite Hr in Hu.
  - rewrite store_unfold.
    destruct (determineCaptureRange engine c s) as [[[range|]|exn] s0] eqn:Hr;
      destruct Hu as (_ & _ & _ & Hm & Hd & _); simpl in *;
      try (intros [H|H]; by destruct H).
    destruct (test _ _ _ s0) as [[|]|] eqn:Ht; simpl;
      try (intros [H|H]; by destruct H).
    intros _. exists range, s0. by split.
Qed.

End Properties.

(** *** Name interpolation *)

Lemma indexOf_dollar c rest :
  indexOf (String c rest) "$" =
  if bool_decide (c = "$"%char) then Some O else S <$> indexOf rest "$".
Proof.
  cbn [indexOf String.prefix]. destruct (ascii_dec "$" c) as [<-|Hne].
  - rewrite bool_decide_eq_true_2 by done. by destruct rest.
  - by rewrite bool_decide_eq_false_2 by congruence.
Qed.

(** A replacement without a dollar sign is taken as it is. *)
Lemma getSubstitution_plain matched before after template :
  includes template "$" = false ->
  getSubstitution matched before after template = template.
Proof.
  unfold includes. induction template as [|c rest IH]; [done|].
  rewrite indexOf_dollar. intros H.
  destruct (bool_decide (c = "$"%char)) eqn:Hc.
  { apply bool_decide_eq_false_1 in H. destruct H. by eexists. }
  cbn [getSubstitution]. rewrite Hc. f_equal. apply IH.
  apply bool_decide_eq_false_2. intros [i Hi].
  apply bool_decide_eq_false_1 in H. apply H. rewrite Hi. by eexists.
Qed.

Lemma replace_plain s search replacement :
  includes replacement "$" = false ->
  replace s search replacement = replaceFirst s search replacement.
Proof.
  intros H. unfold replace, replaceFirst.
  destruct (indexOf s search); [|done]. by rewrite getSubstitution_plain.
Qed.

(** Text with a space leaves the [_TEXT_] token where it is. *)
Lemma interpolateName_text_with_space name node :
  includes (text node) " " = true ->
  interpolateName name node = replace name "_TYPE_" (type node).
Proof.
  intros H. unfold interpolateName. rewrite H. simpl.
  by rewrite andb_false_r.
Qed.

(** Text without a space and without a dollar sign takes the place of the
    first [_TEXT_] token, letter for letter, and so does a type without a
    dollar sign for the first [_TYPE_] token. *)
Lemma interpolateName_plain_text name node :
  includes (text node) " " = false ->
  includes (text node) "$" = false ->
  includes (type node) "$" = false ->
  interpolateName name node =
  replaceFirst (replaceFirst name "_TEXT_" (text node)) "_TYPE_" (type node).
Proof.
  intros Hspace Htext Htype. unfold interpolateName. rewrite Hspace. simpl.
  rewrite andb_true_r, !replace_plain by done.
  destruct (includes name "_TEXT_") eqn:Hin; [done|].
  unfold replaceFirst at 3. unfold includes in Hin.
  apply bool_decide_eq_false_1 in Hin.
  destruct (indexOf name "_TEXT_"); [|done]. destruct Hin. by eexists.
Qed.

(** The two examples of the specification. *)
Example interpolateName_bar : interpolateName "foo._TEXT_" Fixture.bar = "foo.bar".
Proof. reflexivity. Qed.

Example interpolateName_a_b : interpolateName "foo._TEXT_" Fixture.aSpaceB = "foo._TEXT_".
Proof. reflexivity. Qed.

(** C6.  Name interpolation is to put the node's literal text in place of
    [_TEXT_] when the text has no space.  The code does so only for text
    without replacement patterns: the node text [$$] has no space, so
    [_TEXT_] is interpolated, but [replace] reads the text as a template and
    one dollar sign comes out where the literal text has two. *)
Theorem interpolateName_dollar_text :
  includes (text Fixture.dollars) " " = false /\
  interpolateName "foo._TEXT_" Fixture.dollars = "foo.$" /\
  replaceFirst "foo._TEXT_" "_TEXT_" (text Fixture.dollars) = "foo.$$".
Proof. repeat split. Qed.

(** ** Further properties of the code *)

(** *** Points *)


(** X2.  [isBetweenPoints] is containment in the closed interval spanned by
    the two ends, whichever of them comes first; so swapping the ends changes
    nothing. *)
Theorem isBetweenPoints_closed_interval point a b :
  (isBetweenPoints point a b = true <->
   (comparePoints a point <= 0 /\ comparePoints point b <= 0) \/
   (comparePoints b point <= 0 /\ comparePoints point a <= 0)) /\
  isBetweenPoints point a b = isBetweenPoints point b a.
Proof.
  split.
  - destruct point as [rp cp], a as [ra ca], b as [rb cb].
    unfold isBetweenPoints, comparePoints. simpl.
    rewrite andb_true_iff, Z.geb_le, Z.leb_le.
    repeat (case_match; simpl in *); lia.
  - destruct point as [rp cp], a as [ra ca], b as [rb cb].
    unfold isBetweenPoints, comparePoints. simpl.
    apply eq_true_iff_eq.
    rewrite !andb_true_iff, !Z.geb_le, !Z.leb_le.
    repeat (case_match; simpl in *); lia.
Qed.

(** *** Descriptors *)

Lemma split_go_plain separator s :
  forall cur,
    avoids separator s = true ->
    split_go separator cur s = [String.rev_app cur s].
Proof.
  induction s as [|c s IH]; intros cur Hs; [reflexivity|].
  cbn [avoids] in Hs. apply andb_prop in Hs as [Hc Hs].
  cbn [split_go]. rewrite (negb_true_iff _) in Hc. rewrite Hc.
  rewrite IH by done. reflexivity.
Qed.

Lemma split_go_separated separator a b :
  forall cur,
    avoids separator a = true ->
    split_go separator cur (a +:+ String separator b) =
    String.rev_app cur a :: split_go separator EmptyString b.
Proof.
  induction a as [|c a IH]; intros cur Ha.
  - simpl. by rewrite bool_decide_eq_true_2.
  - cbn [avoids] in Ha. apply andb_prop in Ha as [Hc Ha].
    change (String c a +:+ String separator b) with (String c (a +:+ String separator b)).
    cbn [split_go]. rewrite (negb_true_iff _) in Hc. rewrite Hc.
    rewrite IH by done. reflexivity.
Qed.

Lemma avoids_rev_app separator a :
  forall b,
    avoids separator a = true -> avoids separator b = true ->
    avoids separator (String.rev_app a b) = true.
Proof.
  induction a as [|c a IH]; intros b Ha Hb; [done|].
  cbn [avoids] in Ha. apply andb_prop in Ha as [Hc Ha].
  simpl. apply IH; [done|]. cbn [avoids]. by rewrite Hc, Hb.
Qed.

(** No part of a split string holds the separator. *)
Lemma split_go_avoids separator s :
  forall cur,
    avoids separator cur = true ->
    Forall (fun part => avoids separator part = true) (split_go separator cur s).
Proof.
  induction s as [|c s IH]; intros cur Hcur.
  - constructor; [|constructor]. by apply avoids_rev_app.
  - cbn [split_go]. case_bool_decide as Hc.
    + constructor; [by apply avoids_rev_app | by apply IH].
    + apply IH. cbn [avoids]. by rewrite bool_decide_eq_false_2, Hcur.
Qed.

(** Splitting what [join] made of parts without a dot gives the parts back. *)
Lemma split_dot_join_dot parts :
  parts <> [] ->
  Forall (fun part => avoids "." part = true) parts ->
  split_dot (join_dot parts) = parts.
Proof.
  unfold split_dot, split.
  induction parts as [|p parts IH]; intros Hne Hparts; [done|].
  apply Forall_cons in Hparts as [Hp Hparts].
  destruct parts as [|q parts].
  - simpl. by rewrite split_go_plain.
  - change (join_dot (p :: q :: parts)) with (p +:+ String "." (join_dot (q :: parts))).
    rewrite split_go_separated by done. simpl String.rev_app.
    f_equal. by apply IH.
Qed.

Lemma Forall_removelast {A} (P : A -> Prop) (l : list A) :
  Forall P l -> Forall P (removelast l).
Proof.
  induction 1 as [|x l Hx Hl IH]; [constructor|].
  simpl. destruct l; [constructor|]. by constructor.
Qed.

(** X3.  [resolveNodePosition] follows the descriptor part by part: all
    parts but the last are walked from the node (a falsy value on the way
    ends the walk with [null]), and the last part is read off where the walk
    ended.  Joining the leading parts and splitting them again changes
    nothing. *)
Theorem resolveNodePosition_walks node descriptor :
  resolveNodePosition node descriptor =
  bindC (resolveParts (JNode node) (removelast (split_dot descriptor)))
    (fun result =>
       get_property result (default EmptyString (last (split_dot descriptor)))).
Proof.
  unfold resolveNodePosition.
  destruct (removelast (split_dot descriptor)) as [|p parts] eqn:Hparts.
  - reflexivity.
  - rewrite bool_decide_eq_false_2 by done.
    unfold resolveNodeDescriptor. rewrite split_dot_join_dot; [done|done|].
    rewrite <- Hparts. apply Forall_removelast.
    by apply split_go_avoids.
Qed.

(** X4.  A two-part descriptor reads its second part off the value of the
    first part; when the first part is missing or otherwise falsy (a root
    node's [parent], say), the read throws a [TypeError]. *)
Theorem resolveNodePosition_two_parts node part1 part2 :
  avoids "." part1 = true ->
  avoids "." part2 = true ->
  resolveNodePosition node (part1 +:+ "." +:+ part2) =
  if truthy (node_property node part1)
  then get_property (node_property node part1) part2
  else Throw TypeError.
Proof.
  intros H1 H2.
  assert (split_dot (part1 +:+ "." +:+ part2) = [part1; part2]) as Hsplit.
  { unfold split_dot, split.
    change (part1 +:+ "." +:+ part2) with (part1 +:+ String "." part2).
    rewrite split_go_separated, split_go_plain by done. reflexivity. }
  unfold resolveNodePosition. rewrite Hsplit. simpl.
  unfold resolveNodeDescriptor, split_dot, split.
  rewrite split_go_plain by done. simpl.
  destruct (node_property node part1) as [| |n|str|[]| | |]; simpl; try done.
  - by destruct (n =? 0).
  - by case_bool_decide.
Qed.

Section Coverage.

Context {ScopeId : Type}.
Variable engine : Engine.

Abbreviation Resolver := (ScopeResolver ScopeId).
Abbreviation isTest_ := (isTest (ScopeId:=ScopeId)).
Abbreviation testsOf_ := (testsOf (ScopeId:=ScopeId)).
Abbreviation isAdjustment_ := (isAdjustment (ScopeId:=ScopeId) engine).
Abbreviation adjustmentsOf_ := (adjustmentsOf (ScopeId:=ScopeId) engine).
Abbreviation adjusts_ := (adjustsCaptureRange (ScopeId:=ScopeId) engine).

Implicit Types (this s : Resolver) (capture c : Capture) (range r : Range).

(** *** Directives that are neither adjustments nor tests *)

Lemma test_ignores_props key t node value props props' existingData s :
  table_get (@TESTS ScopeId) key = Some t ->
  t node value props existingData s = t node value props' existingData s.
Proof.
  intros H. unfold TESTS in H. simpl in H.
  repeat (case_bool_decide; [by injection H as <-|]); try discriminate.
Qed.

Lemma adjustment_ignores_props key adjust node value props props' range s :
  table_get (@ADJUSTMENTS ScopeId engine) key = Some adjust ->
  adjust node value props range s = adjust node value props' range s.
Proof.
  intros H. unfold ADJUSTMENTS in H. simpl in H.
  repeat (case_bool_decide; [by injection H as <-|]); try discriminate.
Qed.

Lemma applyAdjustments_props node props props' remaining :
  forall range s,
    applyAdjustments engine node props remaining range s =
    applyAdjustments engine node props' remaining range s.
Proof.
  induction remaining as [|[key value] remaining IH]; intros range s; [done|].
  rewrite !applyAdjustments_cons.
  destruct (table_get (@ADJUSTMENTS ScopeId engine) key) as [adjust|] eqn:Hkey; [|apply IH].
  unfold bind. rewrite (adjustment_ignores_props _ _ _ _ props props' _ _ Hkey).
  destruct (adjust node value props' range s) as [[[range'|]|exn] s'];
    first [done | apply IH].
Qed.

Lemma applyAdjustments_adjustmentsOf node props remaining :
  forall range s,
    applyAdjustments engine node props (adjustmentsOf_ remaining) range s =
    applyAdjustments engine node props remaining range s.
Proof.
  induction remaining as [|[key value] remaining IH]; intros range s; [done|].
  rewrite applyAdjustments_cons. unfold adjustmentsOf, isAdjustment. cbn [List.filter fst].
  destruct (table_get (@ADJUSTMENTS ScopeId engine) key) as [adjust|] eqn:Hkey.
  - rewrite bool_decide_eq_true_2 by done.
    rewrite applyAdjustments_cons, Hkey. unfold bind.
    destruct (adjust node value props range s) as [[[range'|]|exn] s'];
      first [done | apply IH].
  - rewrite bool_decide_eq_false_2 by (by intros [? ?]). apply IH.
Qed.

Lemma adjustsCaptureRange_adjustmentsOf c :
  adjusts_ c = negb (bool_decide (adjustmentsOf_ (setProperties c) = [])).
Proof.
  unfold adjustsCaptureRange.
  destruct (setProperties c) as [|entry props]; [done|].
  rewrite bool_decide_eq_false_2 by done.
  generalize (entry :: props). clear. intros props.
  induction props as [|[key value] props IH]; [done|].
  unfold adjustmentsOf, isAdjustment in *. cbn [List.filter fst fmap list_fmap existsb].
  destruct (bool_decide (is_Some (table_get (ADJUSTMENTS engine) key))); [done|].
  exact IH.
Qed.

Lemma determineCaptureRange_adjustments_only c c' s :
  node c = node c' ->
  adjustmentsOf_ (setProperties c) = adjustmentsOf_ (setProperties c') ->
  determineCaptureRange engine c s = determineCaptureRange engine c' s.
Proof.
  intros Hnode Hadj. unfold determineCaptureRange.
  rewrite !adjustsCaptureRange_adjustmentsOf, Hadj, Hnode.
  destruct (negb (negb _)); [done|]. unfold bind.
  rewrite <- (applyAdjustments_adjustmentsOf _ _ (setProperties c)).
  rewrite <- (applyAdjustments_adjustmentsOf _ _ (setProperties c')).
  rewrite Hadj.
  by rewrite (applyAdjustments_props _ (setProperties c) (setProperties c')).
Qed.

Lemma runTests_props existingData props props' node remaining s :
  runTests existingData props node remaining s =
  runTests existingData props' node remaining s.
Proof.
  induction remaining as [|[key value] remaining IH]; [done|].
  cbn [runTests].
  destruct (table_get (@TESTS ScopeId) key) as [t|] eqn:Hkey; [|apply IH].
  rewrite (test_ignores_props _ _ _ _ props props' _ _ Hkey).
  destruct (t node value props' existingData s) as [[|]|]; simpl; try done.
Qed.

Lemma runTests_testsOf existingData props node remaining s :
  runTests existingData props node (testsOf_ remaining) s =
  runTests existingData props node remaining s.
Proof.
  induction remaining as [|[key value] remaining IH]; [done|].
  unfold testsOf, isTest in *. cbn [List.filter fst runTests].
  destruct (table_get (@TESTS ScopeId) key) as [t|] eqn:Hkey.
  - rewrite bool_decide_eq_true_2 by done. cbn [runTests]. rewrite Hkey.
    destruct (t node value props existingData s) as [[|]|]; simpl; try done.
  - rewrite bool_decide_eq_false_2 by (by intros [? ?]). apply IH.
Qed.

Lemma test_tests_only existingData props props' node s :
  testsOf_ props = testsOf_ props' ->
  test existingData props node s = test existingData props' node s.
Proof.
  intros Htests. unfold test. destruct (existing_final existingData); [done|].
  rewrite <- (runTests_testsOf _ _ _ props), <- (runTests_testsOf _ _ _ props').
  rewrite Htests. apply runTests_props.
Qed.

(** X5.  Directive keys that are neither adjustments nor tests, nor names
    inherited from [Object.prototype], are skipped: two captures of the same
    node under the same name, neither with an inherited-name key, whose
    adjustment directives agree and whose test directives agree, get the same
    answer from [store] and leave the same boundary map and pattern cache.
    (The metadata recorded is each capture's own [setProperties].) *)
Theorem unknown_directives_are_skipped c c' s :
  noInheritedKeys (setProperties c) = true ->
  noInheritedKeys (setProperties c') = true ->
  node c = node c' ->
  name c = name c' ->
  adjustmentsOf_ (setProperties c) = adjustmentsOf_ (setProperties c') ->
  testsOf_ (setProperties c) = testsOf_ (setProperties c') ->
  fst (store engine c s) = fst (store engine c' s) /\
  map (snd (store engine c s)) = map (snd (store engine c' s)) /\
  patternCache (snd (store engine c s)) = patternCache (snd (store engine c' s)).
Proof.
  intros _ _ Hnode Hname Hadj Htests.
  rewrite !store_unfold.
  rewrite (determineCaptureRange_adjustments_only c c' s Hnode Hadj).
  destruct (determineCaptureRange engine c' s) as [[[range|]|exn] s0]; try done.
  rewrite (test_tests_only _ _ _ _ _ Htests), Hnode.
  destruct (test _ _ _ s0) as [[|]|]; try done.
  unfold scopeOf. rewrite Hname, Hnode. simpl.
  by case_bool_decide.
Qed.

(** *** The tests as a conjunction *)

Lemma runTests_passes existingData props node remaining s :
  runTests existingData props node remaining s = Normal true <->
  Forall (fun entry =>
            forall t, table_get (@TESTS ScopeId) (fst entry) = Some t ->
                      t node (snd entry) props existingData s = Normal true)
         remaining.
Proof.
  induction remaining as [|[key value] remaining IH].
  - split; [constructor | done].
  - cbn [runTests]. rewrite Forall_cons. cbn [fst snd].
    destruct (table_get (@TESTS ScopeId) key) as [t|] eqn:Hkey.
    + destruct (t node value props existingData s) as [[|]|] eqn:Ht; simpl.
      * rewrite IH. split; [|by intros [_ ?]].
        intros ?. split; [|done]. by intros ? [= <-].
      * split; [done|]. intros [H _]. specialize (H _ eq_refl). congruence.
      * split; [done|]. intros [H _]. specialize (H _ eq_refl). congruence.
    + rewrite IH. split; [|by intros [_ ?]]. intros ?. split; [|done]. by intros ? [=].
Qed.

(** X6.  On a capture without inherited-name keys, [test] is the conjunction
    of the capture's tests: it answers [true] exactly when the range is not
    final and every directive that names a test has that test answer [true];
    the other directives do not count. *)
Theorem test_is_conjunction existingData props node s :
  noInheritedKeys props = true ->
  test existingData props node s = Normal true <->
  existing_final existingData = false /\
  forall key value t,
    (key, value) ∈ props ->
    table_get (@TESTS ScopeId) key = Some t ->
    t node value props existingData s = Normal true.
Proof.
  intros _. unfold test. destruct (existing_final existingData).
  - split; [done | by intros [? _]].
  - rewrite runTests_passes, Forall_forall. split.
    + intros H. split; [done|]. intros key value t Hin. apply (H (key, value) Hin).
    + intros [_ H] [key value] Hin t Ht. by apply (H key value t).
Qed.

Lemma props_get_elem props key value :
  props_get props key = Some value -> (key, value) ∈ props.
Proof.
  induction props as [|[k v] props IH]; [done|]. simpl.
  case_bool_decide as Hk.
  - intros [= ->]. subst. by left.
  - intros H. right. by apply IH.
Qed.

Lemma test_passed_all existingData props node s key value t :
  test existingData props node s = Normal true ->
  (key, value) ∈ props ->
  table_get (@TESTS ScopeId) key = Some t ->
  t node value props existingData s = Normal true.
Proof.
  unfold test. destruct (existing_final existingData); [done|].
  rewrite runTests_passes, Forall_forall. intros H Hin. apply (H (key, value) Hin).
Qed.

(** X7.  A capture with a [shy] directive is never stored on a range that
    already holds metadata, whatever that metadata is: [store] records
    nothing and adds no boundary. *)
Theorem shy_capture_yields c s range s0 :
  resolvesTo engine c s range s0 ->
  is_Some (getDataForRange s range) ->
  props_has (setProperties c) "shy" = true ->
  (forall stored, fst (store engine c s) <> Normal (Some stored)) /\
  snd (store engine c s) = s0 /\
  map s0 = map s /\
  rangeData s0 = rangeData s.
Proof.
  intros Hr Hdata Hshy.
  destruct (determineCaptureRange_stores engine _ _ _ _ Hr) as [Hm Hd].
  assert (test (getDataForRange s0 range) (setProperties c) (node c) s0 <> Normal true)
    as Hfail.
  { intros Hpass. unfold props_has in Hshy.
    apply bool_decide_eq_true_1 in Hshy as [value Hvalue].
    apply props_get_elem in Hvalue.
    pose proof (test_passed_all _ _ _ _ "shy" value shy Hpass Hvalue eq_refl) as H.
    unfold shy in H. injection H as H. apply bool_decide_eq_true_1 in H.
    unfold getDataForRange in *. rewrite Hd in H. rewrite H in Hdata.
    by destruct Hdata. }
  rewrite store_unfold. unfold resolvesTo in Hr. rewrite Hr.
  destruct (test _ _ _ s0) as [[|]|]; try done.
Qed.

(** X8.  A capture without adjustment directives, without test directives
    and without inherited-name keys is stored on its node's own extent
    whenever that range is not final; [store] answers that range unless the
    name is [_IGNORE_]. *)
Theorem undirected_capture_is_stored c s :
  noInheritedKeys (setProperties c) = true ->
  adjustmentsOf_ (setProperties c) = [] ->
  testsOf_ (setProperties c) = [] ->
  existing_final (getDataForRange s (node_range (node c))) = false ->
  accepts engine c s (node_range (node c)) s /\
  (interpolateName (name c) (node c) <> IGNORE ->
   fst (store engine c s) = Normal (Some (node_range (node c)))).
Proof.
  intros _ Hadj Htests Hfinal.
  assert (accepts engine c s (node_range (node c)) s) as Ha.
  { split.
    - apply determineCaptureRange_unadjusted.
      by rewrite adjustsCaptureRange_adjustmentsOf, Hadj.
    - unfold test. rewrite Hfinal.
      by rewrite <- runTests_testsOf, Htests. }
  split; [done|]. intros Hname.
  rewrite (store_accepted engine _ _ _ _ Ha). simpl.
  by rewrite bool_decide_eq_false_2.
Qed.

(** *** Tests that come in pairs *)

Lemma opposites_negated pos neg :
  (pos, neg) ∈ opposites ->
  exists tp tn : Test (ScopeId:=ScopeId),
    table_get TESTS pos = Some tp /\
    table_get TESTS neg = Some tn /\
    forall node value props existingData s,
      tn node value props existingData s = negated (tp node value props existingData s).
Proof.
  unfold opposites. intros H.
  repeat (apply elem_of_cons in H as [H|H];
          [injection H as -> ->; eexists _, _;
           split; [reflexivity|split; [reflexivity|]]; intros node value props ex s|]).
  - unfold onlyIfNotFirst, onlyIfFirst. by destruct (parent node).
  - unfold onlyIfNotLast, onlyIfLast. by destruct (parent node).
  - unfold onlyIfNotLastTextOnRow, onlyIfLastTextOnRow.
    by destruct (lineForRow _ _).
  - reflexivity.
  - unfold onlyIfNotAncestorOfType, onlyIfAncestorOfType. simpl.
    by destruct (descendantsOfType node value).
  - reflexivity.
  - unfold onlyIfNotOnSameRowAs, onlyIfOnSameRowAs.
    destruct (resolveNodePosition node value) as [position|]; [|done]. simpl.
    by destruct (get_property position "row").
  - by apply elem_of_nil in H.
Qed.

(** X9.  The tests that come in pairs ([onlyIfFirst] and [onlyIfNotFirst],
    and so on) are opposites of each other: on the same arguments one answers
    the negation of the other, or both throw the same error.  Hence a capture
    that carries both directives of a pair with the same value never passes
    [test]. *)
Theorem opposite_tests_exclude_each_other pos neg :
  (pos, neg) ∈ opposites ->
  (exists tp tn : Test (ScopeId:=ScopeId),
     table_get TESTS pos = Some tp /\
     table_get TESTS neg = Some tn /\
     forall node value props existingData s,
       tn node value props existingData s
       = negated (tp node value props existingData s)) /\
  (forall existingData props node s value,
     (pos, value) ∈ props ->
     (neg, value) ∈ props ->
     test existingData props node s <> Normal true).
Proof.
  intros Hpair. split; [by apply opposites_negated|].
  intros ex props node s value Hpos Hneg Hpass.
  destruct (opposites_negated _ _ Hpair) as (tp & tn & Htp & Htn & Hopp).
  pose proof (test_passed_all _ _ _ _ _ _ _ Hpass Hpos Htp) as H1.
  pose proof (test_passed_all _ _ _ _ _ _ _ Hpass Hneg Htn) as H2.
  rewrite Hopp, H1 in H2. discriminate.
Qed.

End Coverage.

Section Stores.

Context {ScopeId : Type}.
Variable engine : Engine.

Abbreviation Resolver := (ScopeResolver ScopeId).

Implicit Types (this s : Resolver) (capture c : Capture) (range r : Range).

(** *** Boundaries, position by position *)

Lemma decide_key_point {A} (a b : Point) (x y : A) :
  (if decide (_keyForPoint a = _keyForPoint b) then x else y) =
  (if decide (b = a) then x else y).
Proof.
  destruct (decide (b = a)) as [->|Hne].
  - by rewrite decide_True.
  - rewrite decide_False; [done|]. intros H. by apply _keyForPoint_inj in H.
Qed.

Lemma openAt_setBoundary_root at_ id s point :
  openAt (setBoundary at_ id which_open true s) point =
  if decide (_keyForPoint at_ = _keyForPoint point) then id :: openAt s point
  else openAt s point.
Proof.
  unfold openAt, bundleAt, setBoundary. simpl.
  case_decide as Hk.
  - rewrite Hk, lookup_insert_eq. simpl. by destruct (map s !! _keyForPoint point).
  - by rewrite lookup_insert_ne.
Qed.

Lemma closeAt_setBoundary_root at_ id s point :
  closeAt (setBoundary at_ id which_close true s) point =
  if decide (_keyForPoint at_ = _keyForPoint point) then closeAt s point ++ [id]
  else closeAt s point.
Proof.
  unfold closeAt, bundleAt, setBoundary. simpl.
  case_decide as Hk.
  - rewrite Hk, lookup_insert_eq. simpl. by destruct (map s !! _keyForPoint point).
  - by rewrite lookup_insert_ne.
Qed.

(** X10.  A boundary registered with [root] goes to the outside: the scope
    is put first in the open list, or last in the close list, of the position
    it is registered at.  The other list of that position and the lists of
    every other position stay as they are. *)
Theorem root_boundary_wraps s (point : Point) (id : ScopeId) (q : Point) :
  openAt (setBoundary point id which_open true s) q =
    (if decide (q = point) then id :: openAt s q else openAt s q) /\
  closeAt (setBoundary point id which_open true s) q = closeAt s q /\
  closeAt (setBoundary point id which_close true s) q =
    (if decide (q = point) then closeAt s q ++ [id] else closeAt s q) /\
  openAt (setBoundary point id which_close true s) q = openAt s q.
Proof.
  rewrite openAt_setBoundary_root, closeAt_setBoundary_root, !decide_key_point.
  rewrite closeAt_setBoundary_open, openAt_setBoundary_close. done.
Qed.

(** X11.  A stored capture adds its scope at exactly two places: at the end
    of the open list of its range's start and at the front of the close list
    of its range's end.  The lists of every other position are left as they
    were. *)
Theorem store_boundaries_exact c s range s' (q : Point) :
  store engine c s = (Normal (Some range), s') ->
  openAt s' q =
    (if decide (q = range_startPosition range)
     then openAt s q ++ [scopeOf s c] else openAt s q) /\
  closeAt s' q =
    (if decide (q = range_endPosition range)
     then scopeOf s c :: closeAt s q else closeAt s q).
Proof.
  intros H. apply store_returns_range in H as (s0 & [Hr _] & _ & ->).
  destruct (determineCaptureRange_stores engine _ _ _ _ Hr) as [Hm _].
  split.
  - rewrite openAt_setBoundary_close, openAt_setBoundary_open, decide_key_point.
    rewrite (openAt_map _ (setDataForRange range (setProperties c) s0)) by done.
    done.
  - rewrite closeAt_setBoundary_close, decide_key_point, closeAt_setBoundary_open.
    rewrite (closeAt_map _ (setDataForRange range (setProperties c) s0)) by done.
    done.
Qed.

(** *** Counting boundaries *)

Lemma count_insert (f : Bundle ScopeId -> nat) (m : gmap string (Bundle ScopeId))
    key bundle' :
  (map_fold (fun _ bundle n => f bundle + n) 0 (<[key := bundle']> m)
   + from_option f 0 (m !! key)
   = map_fold (fun _ bundle n => f bundle + n) 0 m + f bundle')%nat.
Proof.
  destruct (m !! key) as [bundle|] eqn:Hkey; simpl.
  - rewrite <- insert_delete_eq.
    rewrite (map_fold_delete_L _ _ key bundle m); [|intros; lia|done].
    rewrite map_fold_insert_L; [lia|intros; lia|apply lookup_delete_eq].
  - rewrite map_fold_insert_L; [lia|intros; lia|done].
Qed.

Lemma openCount_setBoundary_open point id root s :
  openCount (setBoundary point id which_open root s) = S (openCount s).
Proof.
  unfold openCount, setBoundary. simpl.
  pose proof (count_insert (fun bundle => length (open bundle)) (map s)
                (_keyForPoint point)) as H.
  destruct root.
  - specialize (H {| open := id :: open (default emptyBundle (map s !! _keyForPoint point));
                     close := close (default emptyBundle (map s !! _keyForPoint point)) |}).
    simpl in H. destruct (map s !! _keyForPoint point); simpl in *; lia.
  - specialize (H {| open := open (default emptyBundle (map s !! _keyForPoint point)) ++ [id];
                     close := close (default emptyBundle (map s !! _keyForPoint point)) |}).
    simpl in H. rewrite length_app in H.
    destruct (map s !! _keyForPoint point); simpl in *; lia.
Qed.

Lemma openCount_setBoundary_close point id root s :
  openCount (setBoundary point id which_close root s) = openCount s.
Proof.
  unfold openCount, setBoundary. simpl.
  pose proof (count_insert (fun bundle => length (open bundle)) (map s)
                (_keyForPoint point)) as H.
  destruct root.
  - specialize (H {| open := open (default emptyBundle (map s !! _keyForPoint point));
                     close := close (default emptyBundle (map s !! _keyForPoint point)) ++ [id] |}).
    simpl in H. destruct (map s !! _keyForPoint point); simpl in *; lia.
  - specialize (H {| open := open (default emptyBundle (map s !! _keyForPoint point));
                     close := id :: close (default emptyBundle (map s !! _keyForPoint point)) |}).
    simpl in H. destruct (map s !! _keyForPoint point); simpl in *; lia.
Qed.

Lemma closeCount_setBoundary_close point id root s :
  closeCount (setBoundary point id which_close root s) = S (closeCount s).
Proof.
  unfold closeCount, setBoundary. simpl.
  pose proof (count_insert (fun bundle => length (close bundle)) (map s)
                (_keyForPoint point)) as H.
  destruct root.
  - specialize (H {| open := open (default emptyBundle (map s !! _keyForPoint point));
                     close := close (default emptyBundle (map s !! _keyForPoint point)) ++ [id] |}).
    simpl in H. rewrite length_app in H.
    destruct (map s !! _keyForPoint point); simpl in *; lia.
  - specialize (H {| open := open (default emptyBundle (map s !! _keyForPoint point));
                     close := id :: close (default emptyBundle (map s !! _keyForPoint point)) |}).
    simpl in H. destruct (map s !! _keyForPoint point); simpl in *; lia.
Qed.

Lemma closeCount_setBoundary_open point id root s :
  closeCount (setBoundary point id which_open root s) = closeCount s.
Proof.
  unfold closeCount, setBoundary. simpl.
  pose proof (count_insert (fun bundle => length (close bundle)) (map s)
                (_keyForPoint point)) as H.
  destruct root.
  - specialize (H {| open := id :: open (default emptyBundle (map s !! _keyForPoint point));
                     close := close (default emptyBundle (map s !! _keyForPoint point)) |}).
    simpl in H. destruct (map s !! _keyForPoint point); simpl in *; lia.
  - specialize (H {| open := open (default emptyBundle (map s !! _keyForPoint point)) ++ [id];
                     close := close (default emptyBundle (map s !! _keyForPoint point)) |}).
    simpl in H. destruct (map s !! _keyForPoint point); simpl in *; lia.
Qed.

Lemma counts_map s s' :
  map s' = map s -> openCount s' = openCount s /\ closeCount s' = closeCount s.
Proof. unfold openCount, closeCount. by intros ->. Qed.

(** One call adds one open and one close entry, or none of either. *)
Lemma store_counts c s :
  (openCount (snd (store engine c s)) = S (openCount s) /\
   closeCount (snd (store engine c s)) = S (closeCount s)) \/
  (openCount (snd (store engine c s)) = openCount s /\
   closeCount (snd (store engine c s)) = closeCount s).
Proof.
  rewrite store_unfold.
  destruct (determineCaptureRange engine c s) as [[[range|]|exn] s0] eqn:Hr;
    destruct (determineCaptureRange_stores engine _ _ _ _ Hr) as [Hm _];
    try (right; by apply counts_map).
  destruct (test _ _ _ s0) as [[|]|]; try (right; by apply counts_map).
  simpl. case_bool_decide.
  - right. by apply counts_map.
  - left. simpl.
    rewrite openCount_setBoundary_close, openCount_setBoundary_open.
    rewrite closeCount_setBoundary_close, closeCount_setBoundary_open.
    destruct (counts_map s (setDataForRange range (setProperties c) s0) Hm) as [-> ->].
    done.
Qed.

(** X12.  The boundary map stays balanced under [store]: if it holds as
    many open entries as close entries, it still does after any sequence of
    calls, whatever they answer. *)
Theorem boundaries_stay_balanced captures :
  forall s,
    openCount s = closeCount s ->
    openCount (storeAll engine captures s) = closeCount (storeAll engine captures s).
Proof.
  induction captures as [|c captures IH]; intros s Hbalanced; [done|].
  simpl. apply IH.
  destruct (store_counts c s) as [[-> ->]|[-> ->]]; by rewrite Hbalanced.
Qed.

(** *** Metadata, range by range *)

(** X13.  Recording and looking up metadata go by the pair of indices: after
    a capture is accepted, a lookup answers that capture's [setProperties]
    for every range with the same [startIndex] and [endIndex] (whatever its
    positions), and what it answered before for every other range. *)
Theorem store_metadata_exact c s range s0 (other : Range) :
  accepts engine c s range s0 ->
  getDataForRange (snd (store engine c s)) other =
    if decide (sameIndices other range) then Some (setProperties c)
    else getDataForRange s other.
Proof.
  intros Ha.
  destruct (determineCaptureRange_stores engine _ _ _ _ (proj1 Ha)) as [_ Hd].
  assert (rangeData (snd (store engine c s))
          = <[_keyForRange range := setProperties c]> (rangeData s)) as Heq.
  { rewrite (store_accepted engine _ _ _ _ Ha). simpl.
    case_bool_decide; simpl; by rewrite Hd. }
  unfold getDataForRange. rewrite Heq. case_decide as Hsame.
  - apply _keyForRange_inj in Hsame. by rewrite Hsame, lookup_insert_eq.
  - rewrite lookup_insert_ne; [done|].
    intros H. apply Hsame. by apply _keyForRange_inj.
Qed.

(** X14.  Metadata with a truthy [final] is frozen: no sequence of [store]
    calls changes what is recorded under that key. *)
Theorem final_metadata_is_frozen key captures :
  forall s,
    finalAt key s ->
    rangeData (storeAll engine captures s) !! key = rangeData s !! key.
Proof.
  induction captures as [|c captures IH]; intros s Hf; [done|].
  simpl. rewrite IH by (by apply store_keeps_final). 
  destruct (store_rangeData engine c s) as [->|(range & s0 & [Hr _] & Heq)]; [done|].
  destruct (decide (_keyForRange range = key)) as [<-|Hne].
  - rewrite (store_on_final engine _ _ _ _ Hf Hr). simpl.
    by destruct (determineCaptureRange_stores engine _ _ _ _ Hr) as [_ ->].
  - by rewrite Heq, lookup_insert_ne.
Qed.

End Stores.

Section Adjusting.

Context {ScopeId : Type}.
Variable engine : Engine.

Abbreviation Resolver := (ScopeResolver ScopeId).
Abbreviation isAdjustment_ := (isAdjustment (ScopeId:=ScopeId) engine).

Implicit Types (this s : Resolver) (capture c : Capture) (range r : Range).

(** *** The pattern cache *)

(** An adjustment leaves the instance as it is or as [getOrCompilePattern]
    on its value leaves it. *)
Lemma adjustment_state key adjust node value props range s :
  table_get (@ADJUSTMENTS ScopeId engine) key = Some adjust ->
  snd (adjust node value props range s) = s \/
  snd (adjust node value props range s) = snd (getOrCompilePattern engine value s).
Proof.
  intros H. unfold ADJUSTMENTS in H. simpl in H.
  repeat (case_bool_decide; [injection H as <-|]); try discriminate.
  - left. unfold startAt. by destruct (positionWithin node value).
  - left. unfold endAt. by destruct (positionWithin node value).
  - left. unfold offsetStart. destruct (ToNumber engine value); [|done].
    simpl. by case_match.
  - left. unfold offsetEnd. destruct (ToNumber engine value); [|done].
    simpl. by case_match.
  - right. unfold startAndEndAroundFirstMatchOf, bind.
    destruct (getOrCompilePattern engine value s) as [[regex|exn] s']; [|done].
    by destruct (matchText engine node regex).
  - right. unfold startBeforeFirstMatchOf, bind.
    destruct (getOrCompilePattern engine value s) as [[regex|exn] s']; [|done].
    by destruct (matchText engine node regex).
  - right. unfold startAfterFirstMatchOf, bind.
    destruct (getOrCompilePattern engine value s) as [[regex|exn] s']; [|done].
    by destruct (matchText engine node regex).
  - right. unfold endBeforeFirstMatchOf, bind.
    destruct (getOrCompilePattern engine value s) as [[regex|exn] s']; [|done].
    by destruct (matchText engine node regex).
  - right. unfold endAfterFirstMatchOf, bind.
    destruct (getOrCompilePattern engine value s) as [[regex|exn] s']; [|done].
    by destruct (matchText engine node regex).
Qed.

Lemma getOrCompilePattern_consistent pattern s :
  cacheConsistent s -> cacheConsistent (snd (getOrCompilePattern engine pattern s)).
Proof.
  intros Hs. unfold getOrCompilePattern.
  destruct (patternCache s !! pattern) as [cached|] eqn:Hcached; [done|].
  destruct (RegExp_valid engine pattern); [|done].
  intros q regex. simpl. rewrite lookup_insert. case_decide as Hq.
  - intros [= <-]. subst q. simpl. split; [done|]. split; [lia|].
    intros q' regex'. rewrite lookup_insert. case_decide; [done|].
    intros Hq' Hid. destruct (Hs _ _ Hq') as (_ & Hlt & _). simpl in Hid. lia.
  - intros Hregex. destruct (Hs _ _ Hregex) as (Hsource & Hlt & Hunique).
    split; [done|]. split; [lia|].
    intros q' regex'. rewrite lookup_insert. case_decide.
    + intros [= <-]. simpl. lia.
    + apply Hunique.
Qed.

Lemma applyAdjustments_consistent node props remaining :
  forall range s,
    cacheConsistent s ->
    cacheConsistent (snd (applyAdjustments engine node props remaining range s)).
Proof.
  induction remaining as [|[key value] remaining IH]; intros range s Hs; [done|].
  rewrite applyAdjustments_cons.
  destruct (table_get (@ADJUSTMENTS ScopeId engine) key) as [adjust|] eqn:Hkey;
    [|by apply IH].
  assert (cacheConsistent (snd (adjust node value props range s))) as Hnext.
  { destruct (adjustment_state key adjust node value props range s Hkey) as [->| ->];
      [done | by apply getOrCompilePattern_consistent]. }
  unfold bind.
  destruct (adjust node value props range s) as [[[range'|]|exn] s']; simpl in *;
    first [done | by apply IH].
Qed.

Lemma store_consistent c s :
  cacheConsistent s -> cacheConsistent (snd (store engine c s)).
Proof.
  intros Hs. rewrite store_unfold.
  assert (cacheConsistent (snd (determineCaptureRange engine c s))) as Hnext.
  { unfold determineCaptureRange.
    destruct (negb (adjustsCaptureRange engine c)); [done|]. unfold bind.
    pose proof (applyAdjustments_consistent (node c) (setProperties c)
                  (setProperties c) (node_range (node c)) s Hs) as H.
    destruct (applyAdjustments _ _ _ _ _ s) as [[[range|]|exn] s0]; simpl in *;
      try done.
    by destruct (negb (isValidRange range)). }
  destruct (determineCaptureRange engine c s) as [[[range|]|exn] s0]; simpl in *;
    try done.
  destruct (test _ _ _ s0) as [[|]|]; simpl; try done.
  case_bool_decide; done.
Qed.

(** X15.  The pattern cache is kept consistent by every operation: a cached
    [RegExp] was built from the very string it is filed under, and no two
    entries hold the same object.  This holds for a new resolver and is kept
    by [getOrCompilePattern], [store] and [reset]. *)
Theorem pattern_cache_stays_consistent :
  (forall languageLayer (idForScope : string -> ScopeId),
     cacheConsistent (constructor languageLayer idForScope)) /\
  (forall s pattern,
     cacheConsistent s -> cacheConsistent (snd (getOrCompilePattern engine pattern s))) /\
  (forall s captures, cacheConsistent s -> cacheConsistent (storeAll engine captures s)) /\
  (forall s, cacheConsistent s -> cacheConsistent (reset s)).
Proof.
  split; [|split; [|split]].
  - intros layer idf pattern regex. simpl. by rewrite lookup_empty.
  - intros s pattern. apply getOrCompilePattern_consistent.
  - intros s captures. revert s.
    induction captures as [|c captures IH]; intros s Hs; [done|].
    simpl. apply IH. by apply store_consistent.
  - intros s Hs. exact Hs.
Qed.

(** X16.  [getOrCompilePattern] compiles a pattern once: the first call
    builds a new [RegExp] and files it, and asking again answers that same
    object and changes nothing.  A pattern that does not compile is not
    filed. *)
Theorem getOrCompilePattern_memoizes pattern s :
  (forall regex s1,
     getOrCompilePattern engine pattern s = (Normal regex, s1) ->
     getOrCompilePattern engine pattern s1 = (Normal regex, s1) /\
     (patternCache s !! pattern = None ->
      regexp_id regex = allocated s /\ source regex = pattern /\
      allocated s1 = S (allocated s))) /\
  (forall e s1,
     getOrCompilePattern engine pattern s = (Throw e, s1) ->
     s1 = s /\ patternCache s !! pattern = None).
Proof.
  unfold getOrCompilePattern. split.
  - intros regex s1.
    destruct (patternCache s !! pattern) as [cached|] eqn:Hcached.
    + intros [= <- <-]. by rewrite Hcached.
    + destruct (RegExp_valid engine pattern); [|done].
      intros [= <- <-]. simpl. by rewrite lookup_insert_eq.
  - intros e s1.
    destruct (patternCache s !! pattern) as [cached|]; [done|].
    destruct (RegExp_valid engine pattern); [done|]. by intros [= _ <-].
Qed.

(** *** Adjustments that check their position *)

Lemma positionWithin_between node value p :
  positionWithin node value = Normal p ->
  isBetweenPoints p (startPosition node) (endPosition node) = true.
Proof.
  unfold positionWithin.
  destruct (resolveNodePosition node value) as [[]|]; simpl; try done.
  destruct (isBetweenPoints _ _ _) eqn:Hb; [|done]. by intros [= <-].
Qed.

Lemma positional_within key adjust node value props range s range' s' :
  table_get (@ADJUSTMENTS ScopeId engine) key = Some adjust ->
  positional key = true ->
  withinNode node range ->
  adjust node value props range s = (Normal (Some range'), s') ->
  withinNode node range'.
Proof.
  unfold positional, withinNode. intros Htable Hkey [Hstart Hend].
  destruct (bool_decide (key = "startAt")) eqn:K1.
  { apply bool_decide_eq_true_1 in K1 as ->. injection Htable as <-.
    unfold startAt.
    destruct (positionWithin node value) as [p|] eqn:Hp; [|done].
    intros [= <- _]. simpl. split; [by eapply positionWithin_between | done]. }
  destruct (bool_decide (key = "endAt")) eqn:K2.
  { apply bool_decide_eq_true_1 in K2 as ->. injection Htable as <-.
    unfold endAt.
    destruct (positionWithin node value) as [p|] eqn:Hp; [|done].
    intros [= <- _]. simpl. split; [done | by eapply positionWithin_between]. }
  destruct (bool_decide (key = "offsetStart")) eqn:K3.
  { apply bool_decide_eq_true_1 in K3 as ->. injection Htable as <-.
    unfold offsetStart. destruct (ToNumber engine value); [|done].
    destruct (isBetweenPoints (adjustPositionByOffset _ _ _) _ _) eqn:Hb; simpl; [|done].
    intros [= <- _]. simpl. by split. }
  destruct (bool_decide (key = "offsetEnd")) eqn:K4; [|done].
  apply bool_decide_eq_true_1 in K4 as ->. injection Htable as <-.
  unfold offsetEnd. destruct (ToNumber engine value); [|done].
  destruct (isBetweenPoints (adjustPositionByOffset _ _ _) _ _) eqn:Hb; simpl; [|done].
  intros [= <- _]. simpl. by split.
Qed.

Lemma applyAdjustments_within node props remaining :
  forall range s range' s',
    Forall (fun entry => isAdjustment_ (fst entry) = true -> positional (fst entry) = true)
      remaining ->
    withinNode node range ->
    applyAdjustments engine node props remaining range s = (Normal (Some range'), s') ->
    withinNode node range'.
Proof.
  induction remaining as [|[key value] remaining IH];
    intros range s range' s' Hall Hin.
  - by intros [= <- _].
  - apply Forall_cons in Hall as [Hkey Hall]. simpl in Hkey.
    rewrite applyAdjustments_cons.
    destruct (table_get (@ADJUSTMENTS ScopeId engine) key) as [adjust|] eqn:Htable;
      [|by apply IH].
    unfold bind.
    destruct (adjust node value props range s) as [[[range1|]|exn] s1] eqn:Hadj;
      try done.
    apply IH; [done|].
    eapply positional_within; [exact Htable| |exact Hin|exact Hadj].
    apply Hkey. unfold isAdjustment. rewrite Htable. by apply bool_decide_eq_true_2.
Qed.

(** X17.  Adjustments that check their position only narrow: when every
    adjustment directive of a capture is [startAt], [endAt], [offsetStart] or
    [offsetEnd], the range the capture resolves to has both its ends within
    the node's own extent. *)
Theorem positional_adjustments_stay_within c s range s0 :
  (forall key value,
     (key, value) ∈ setProperties c ->
     isAdjustment_ key = true -> positional key = true) ->
  resolvesTo engine c s range s0 ->
  withinNode (node c) range.
Proof.
  intros Hall. unfold resolvesTo, determineCaptureRange.
  assert (withinNode (node c) (node_range (node c))) as Hnode
    by (split; apply isBetweenPoints_ends).
  destruct (negb (adjustsCaptureRange engine c)).
  { by intros [= <- _]. }
  unfold bind.
  destruct (applyAdjustments _ _ _ _ _ s) as [[[range0|]|exn] s1] eqn:Happ; try done.
  destruct (negb (isValidRange range0)); [done|]. intros [= <- _].
  eapply applyAdjustments_within; [|exact Hnode|exact Happ].
  apply Forall_forall. intros [key value] Hin. simpl. by apply (Hall key value).
Qed.

(** *** Adjustments that look for a pattern *)

Lemma matching_adjustment key node value props range s :
  matching key = true ->
  exists adjust,
    table_get (@ADJUSTMENTS ScopeId engine) key = Some adjust /\
    (forall e s1,
       getOrCompilePattern engine value s = (Throw e, s1) ->
       adjust node value props range s = (Throw e, s1)) /\
    (forall regex s1,
       getOrCompilePattern engine value s = (Normal regex, s1) ->
       RegExp_exec engine (source regex) (text node) = None ->
       adjust node value props range s = (Normal None, s1)).
Proof.
  unfold matching. intros Hkey.
  destruct (bool_decide (key = "startAndEndAroundFirstMatchOf")) eqn:K1.
  { apply bool_decide_eq_true_1 in K1 as ->. eexists. split; [reflexivity|].
    unfold startAndEndAroundFirstMatchOf, bind, matchText.
    split; [by intros e s1 ->|]. by intros regex s1 -> ->. }
  destruct (bool_decide (key = "startBeforeFirstMatchOf")) eqn:K2.
  { apply bool_decide_eq_true_1 in K2 as ->. eexists. split; [reflexivity|].
    unfold startBeforeFirstMatchOf, bind, matchText.
    split; [by intros e s1 ->|]. by intros regex s1 -> ->. }
  destruct (bool_decide (key = "startAfterFirstMatchOf")) eqn:K3.
  { apply bool_decide_eq_true_1 in K3 as ->. eexists. split; [reflexivity|].
    unfold startAfterFirstMatchOf, bind, matchText.
    split; [by intros e s1 ->|]. by intros regex s1 -> ->. }
  destruct (bool_decide (key = "endBeforeFirstMatchOf")) eqn:K4.
  { apply bool_decide_eq_true_1 in K4 as ->. eexists. split; [reflexivity|].
    unfold endBeforeFirstMatchOf, bind, matchText.
    split; [by intros e s1 ->|]. by intros regex s1 -> ->. }
  destruct (bool_decide (key = "endAfterFirstMatchOf")) eqn:K5; [|done].
  apply bool_decide_eq_true_1 in K5 as ->. eexists. split; [reflexivity|].
  unfold endAfterFirstMatchOf, bind, matchText.
  split; [by intros e s1 ->|]. by intros regex s1 -> ->.
Qed.

(** X18.  When a pattern adjustment is reached and its pattern finds no
    match in the node's text, the capture is dropped silently: [store]
    answers [false], no error is raised, and nothing is recorded but the
    compiled pattern.  When the pattern does not compile, the error leaves
    [store]. *)
Theorem unmatched_pattern_drops_capture c s pre key value post range s0 :
  setProperties c = pre ++ (key, value) :: post ->
  matching key = true ->
  applyAdjustments engine (node c) (setProperties c) pre (node_range (node c)) s
    = (Normal (Some range), s0) ->
  (forall regex s1,
     getOrCompilePattern engine value s0 = (Normal regex, s1) ->
     RegExp_exec engine (source regex) (text (node c)) = None ->
     store engine c s = (Normal None, s1) /\
     map s1 = map s /\ rangeData s1 = rangeData s) /\
  (forall e s1,
     getOrCompilePattern engine value s0 = (Throw e, s1) ->
     store engine c s = (Throw e, s1)).
Proof.
  intros Hprops Hkey Hpre.
  destruct (matching_adjustment key (node c) value (setProperties c) range s0 Hkey)
    as (adjust & Htable & Hthrow & Hnone).
  assert (adjustsCaptureRange (ScopeId:=ScopeId) engine c = true) as Hadj
    by (eapply adjustsCaptureRange_key; [exact Hprops | by rewrite Htable]).
  assert (forall outcome,
            adjust (node c) value (setProperties c) range s0 = outcome ->
            applyAdjustments engine (node c) (setProperties c) (setProperties c)
              (node_range (node c)) s =
            bind (fun _ => outcome)
              (fun adjusted =>
                 match adjusted with
                 | None => ret None
                 | Some range' =>
                     applyAdjustments engine (node c) (setProperties c) post range'
                 end) s0) as Hrun.
  { intros outcome <-. rewrite Hprops at 2.
    rewrite applyAdjustments_app, Hpre, applyAdjustments_cons, Htable. done. }
  split.
  - intros regex s1 Hcompiled Hexec.
    assert (determineCaptureRange engine c s = (Normal None, s1)) as Hr.
    { rewrite determineCaptureRange_adjusted by done.
      rewrite (Hrun _ (Hnone _ _ Hcompiled Hexec)). done. }
    split; [by apply store_no_range|]. by eapply determineCaptureRange_stores.
  - intros e s1 Hcompiled. apply store_range_throws.
    rewrite determineCaptureRange_adjusted by done.
    rewrite (Hrun _ (Hthrow _ _ Hcompiled)). done.
Qed.

End Adjusting.

(** *** Names *)

Lemma includes_false s search : includes s search = false -> indexOf s search = None.
Proof.
  unfold includes. intros H. apply bool_decide_eq_false_1 in H.
  destruct (indexOf s search); [|done]. destruct H. by eexists.
Qed.

Lemma replace_absent s search replacement :
  includes s search = false -> replace s search replacement = s.
Proof. intros H. unfold replace. by rewrite (includes_false _ _ H). Qed.

(** X19.  A name that holds neither token is left as it is, whatever the
    node; so the name [_IGNORE_] is recognised on every node. *)
Theorem interpolateName_without_tokens name node :
  includes name "_TEXT_" = false ->
  includes name "_TYPE_" = false ->
  interpolateName name node = name /\ interpolateName IGNORE node = IGNORE.
Proof.
  intros Htext Htype. unfold interpolateName. split.
  - rewrite Htext. simpl. by apply replace_absent.
  - by rewrite !replace_absent by reflexivity.
Qed.

Lemma indexOf_char ch c rest :
  indexOf (String c rest) (String ch EmptyString) =
  if bool_decide (c = ch) then Some O else S <$> indexOf rest (String ch EmptyString).
Proof.
  cbn [indexOf String.prefix]. destruct (ascii_dec ch c) as [<-|Hne].
  - rewrite bool_decide_eq_true_2 by done. by destruct rest.
  - by rewrite bool_decide_eq_false_2 by congruence.
Qed.

Lemma includes_char ch s : includes s (String ch EmptyString) = negb (avoids ch s).
Proof.
  unfold includes. induction s as [|c s IH].
  - done.
  - rewrite indexOf_char. cbn [avoids]. destruct (bool_decide (c = ch)); simpl.
    + done.
    + rewrite <- IH. apply bool_decide_ext.
      destruct (indexOf s (String ch EmptyString)); simpl; split; intros [? ?]; done.
Qed.

Lemma avoids_app ch a b :
  avoids ch (a +:+ b) = avoids ch a && avoids ch b.
Proof.
  induction a as [|c a IH]; [done|]. simpl. rewrite IH. by rewrite andb_assoc.
Qed.

Lemma avoids_substring_to ch s n : avoids ch s = true -> avoids ch (substring_to s n) = true.
Proof.
  revert s. induction n as [|n IH]; intros [|c s]; simpl; try done.
  intros H. apply andb_prop in H as [-> H]. simpl. by apply IH.
Qed.

Lemma avoids_slice ch s n : avoids ch s = true -> avoids ch (slice s n) = true.
Proof.
  revert s. induction n as [|n IH]; intros [|c s]; simpl; try done.
  intros H. apply andb_prop in H as [_ H]. by apply IH.
Qed.

Lemma avoids_getSubstitution ch matched before after template :
  avoids ch matched = true -> avoids ch before = true -> avoids ch after = true ->
  avoids ch template = true ->
  avoids ch (getSubstitution matched before after template) = true.
Proof.
  intros Hm Hb Ha.
  assert (forall n template,
            (String.length template <= n)%nat ->
            avoids ch template = true ->
            avoids ch (getSubstitution matched before after template) = true) as Hall.
  { induction n as [|n IH]; intros [|c rest] Hlen Ht; try done; [simpl in Hlen; lia|].
    simpl in Hlen. cbn [avoids] in Ht. apply andb_prop in Ht as [Hc Hrest].
    cbn [getSubstitution].
    assert (avoids ch (getSubstitution matched before after rest) = true) as Hgo
      by (apply IH; [lia | done]).
    destruct (bool_decide (c = "$"%char)) eqn:Hdollar;
      [|by cbn [avoids]; rewrite Hc, Hgo].
    apply bool_decide_eq_true_1 in Hdollar. subst c.
    destruct rest as [|d rest']; [by cbn [avoids]; rewrite Hc|].
    cbn [avoids] in Hrest. apply andb_prop in Hrest as [Hd Hrest'].
    assert (avoids ch (getSubstitution matched before after rest') = true) as Hgo'
      by (apply IH; [simpl in Hlen; lia | done]).
    repeat match goal with
           | |- context [if bool_decide ?P then _ else _] => destruct (bool_decide P)
           end;
      rewrite ?avoids_app; cbn [avoids];
      rewrite ?Hc, ?Hm, ?Hb, ?Ha, ?Hgo', ?Hgo; done. }
  intros Ht. by apply (Hall (String.length template)).
Qed.

Lemma avoids_replace ch s search replacement :
  avoids ch s = true -> avoids ch search = true -> avoids ch replacement = true ->
  avoids ch (replace s search replacement) = true.
Proof.
  intros Hs Hsearch Hr. unfold replace.
  destruct (indexOf s search) as [i|]; [|done].
  rewrite !avoids_app.
  rewrite avoids_substring_to, avoids_slice by done.
  rewrite avoids_getSubstitution; auto using avoids_substring_to, avoids_slice.
Qed.

(** X20.  Interpolation brings no space into a scope name: if the name has
    no space and the node's type has none, the interpolated name has none,
    whatever the node's text is. *)
Theorem interpolateName_brings_no_space name node :
  includes name " " = false ->
  includes (type node) " " = false ->
  includes (interpolateName name node) " " = false.
Proof.
  rewrite !includes_char, !negb_false_iff. intros Hname Htype.
  unfold interpolateName. apply avoids_replace; [|done|done].
  destruct (includes name "_TEXT_"); simpl; [|done].
  rewrite includes_char. destruct (avoids " " (text node)) eqn:Htext; simpl; [|done].
  by apply avoids_replace.
Qed.

(** *** Siblings *)

Lemma scanSiblings_until node pre n post :
  id n = id node ->
  Forall (fun child => id child <> id node) pre ->
  scanSiblings node (pre ++ n :: post) =
  bool_decide (Forall (fun child => type child <> type node) pre).
Proof.
  intros Hn. induction 1 as [|child pre Hchild Hpre IH].
  - simpl. by rewrite Hn, Z.eqb_refl.
  - change ((child :: pre) ++ n :: post) with (child :: (pre ++ n :: post)).
    cbn [scanSiblings]. rewrite (proj2 (Z.eqb_neq _ _) Hchild).
    destruct (bool_decide (type child = type node)) eqn:Htype;
      [apply bool_decide_eq_true_1 in Htype | apply bool_decide_eq_false_1 in Htype].
    + rewrite bool_decide_eq_false_2; [done|]. intros H.
      by apply Forall_cons in H as [? _].
    + rewrite IH. apply bool_decide_ext. rewrite Forall_cons. tauto.
Qed.

(** X22.  For a node that figures once among its parent's children,
    [onlyIfFirstOfType] passes exactly when no earlier sibling has the node's
    type, and [onlyIfLastOfType] exactly when no later sibling has it. *)
Theorem first_and_last_of_type {ScopeId : Type} node p pre n post value props
    existingData (s : ScopeResolver ScopeId) :
  parent node = Some p ->
  children p = pre ++ n :: post ->
  id n = id node ->
  Forall (fun child => id child <> id node) pre ->
  Forall (fun child => id child <> id node) post ->
  onlyIfFirstOfType node value props existingData s =
    Normal (bool_decide (Forall (fun child => type child <> type node) pre)) /\
  onlyIfLastOfType node value props existingData s =
    Normal (bool_decide (Forall (fun child => type child <> type node) post)).
Proof.
  intros Hp Hchildren Hn Hpre Hpost.
  unfold onlyIfFirstOfType, onlyIfLastOfType. rewrite Hp, Hchildren. split.
  - by rewrite scanSiblings_until.
  - rewrite rev_app_distr. simpl. rewrite <- app_assoc. simpl.
    rewrite scanSiblings_until; [|done|by apply Forall_rev].
    f_equal. apply bool_decide_ext. split; intros H.
    + rewrite <- (rev_involutive post). by apply Forall_rev.
    + by apply Forall_rev.
Qed.

(** *** The iterator *)

Lemma split_key (x y : Z) :
  split (pretty x +:+ "," +:+ pretty y) "," = [pretty x; pretty y].
Proof.
  assert (forall z : Z, avoids "," (pretty z) = true) as Havoids.
  { intros z. apply avoids_pretty_Z; [|done].
    intros d. unfold pretty_N_char. by repeat case_match. }
  unfold split.
  change (pretty x +:+ "," +:+ pretty y) with (pretty x +:+ String "," (pretty y)).
  rewrite split_go_separated, split_go_plain by done. reflexivity.
Qed.

Lemma bundleAt_open {ScopeId : Type} (s : ScopeResolver ScopeId) point id ids :
  openAt s point = ids ++ [id] ->
  exists bundle, map s !! _keyForPoint point = Some bundle /\ id ∈ open bundle.
Proof.
  unfold openAt, bundleAt. destruct (map s !! _keyForPoint point) as [bundle|]; simpl.
  - intros H. exists bundle. split; [done|]. rewrite H. set_solver.
  - by destruct ids.
Qed.

Lemma bundleAt_close {ScopeId : Type} (s : ScopeResolver ScopeId) point id ids :
  closeAt s point = id :: ids ->
  exists bundle, map s !! _keyForPoint point = Some bundle /\ id ∈ close bundle.
Proof.
  unfold closeAt, bundleAt. destruct (map s !! _keyForPoint point) as [bundle|]; simpl.
  - intros H. exists bundle. split; [done|]. rewrite H. set_solver.
  - done.
Qed.

(** X21.  The iterator gives back the positions boundaries were stored at.
    When [Number] reads a printed integer back, the key of a position is
    turned into that very position; and after a capture is stored the
    iterator yields its range's start with the capture's scope in the open
    list, and its range's end with the scope in the close list. *)
Theorem iterator_yields_stored_positions {ScopeId : Type} (engine : Engine)
    c (s : ScopeResolver ScopeId) range s' :
  (forall z : Z, ToNumber engine (pretty z) = Some z) ->
  store engine c s = (Normal (Some range), s') ->
  (forall point, _keyToObject engine (_keyForPoint point) = Some point) /\
  (exists bundle,
     (Some (range_startPosition range), bundle) ∈ boundaries engine s' /\
     scopeOf s c ∈ open bundle) /\
  (exists bundle,
     (Some (range_endPosition range), bundle) ∈ boundaries engine s' /\
     scopeOf s c ∈ close bundle).
Proof.
  intros Hnumber Hstore.
  assert (forall point, _keyToObject engine (_keyForPoint point) = Some point) as Hkey.
  { intros [r col]. unfold _keyToObject, _keyForPoint. simpl.
    by rewrite split_key, !Hnumber. }
  split; [done|].
  assert (forall point bundle,
            map s' !! _keyForPoint point = Some bundle ->
            (Some point, bundle) ∈ boundaries engine s') as Hyield.
  { intros point bundle Hlookup. unfold boundaries.
    apply list_elem_of_fmap. exists (_keyForPoint point, bundle).
    simpl. rewrite Hkey. split; [done|]. by apply elem_of_map_to_list. }
  split.
  - destruct (bundleAt_open s' _ _ _ (store_opens engine _ _ _ _ Hstore))
      as (bundle & Hlookup & Hin).
    exists bundle. split; [by apply Hyield | done].
  - destruct (bundleAt_close s' _ _ _ (store_closes engine _ _ _ _ Hstore))
      as (bundle & Hlookup & Hin).
    exists bundle. split; [by apply Hyield | done].
Qed.

(** *** Metadata seen from below *)

(** X23.  Metadata recorded for a node is seen by the tests of its
    descendants: once a capture is accepted on the range of one of a node's
    ancestors, [onlyIfDescendantOfNodeWithData] with any key of that capture's
    properties passes on the node, and [onlyIfNotDescendantOfNodeWithData]
    fails.  (This is what a capture named [_IGNORE_] is recorded for.) *)
Theorem metadata_reaches_descendants {ScopeId : Type} (engine : Engine)
    (A : Capture) (s : ScopeResolver ScopeId) range s0
    (n ancestor : SyntaxNode) key props existingData :
  accepts engine A s range s0 ->
  ancestor ∈ ancestors n ->
  sameIndices (node_range ancestor) range ->
  props_has (setProperties A) key = true ->
  onlyIfDescendantOfNodeWithData n key props existingData (snd (store engine A s))
    = Normal true /\
  onlyIfNotDescendantOfNodeWithData n key props existingData (snd (store engine A s))
    = Normal false.
Proof.
  intros Ha Hancestor Hsame Hkey.
  assert (existsb
            (fun current =>
               match getDataForRange (snd (store engine A s)) (node_range current) with
               | Some data => props_has data key
               | None => false
               end) (ancestors n) = true) as Hfound.
  { apply existsb_exists. exists ancestor. split; [by apply list_elem_of_In|].
    unfold getDataForRange.
    rewrite (proj2 (_keyForRange_inj _ _) Hsame).
    by rewrite (store_records engine _ _ _ _ Ha). }
  unfold onlyIfNotDescendantOfNodeWithData, onlyIfDescendantOfNodeWithData.
  simpl. by rewrite Hfound.
Qed.

(** ** The properties at work on one line of text *)

Import Fixture.

(** The keys the maps are indexed by, and the way back from a key. *)
Example key_of_identifier_range : _keyForRange (extent identifier) = "4/5".
Proof. reflexivity. Qed.

Example key_of_identifier_start : _keyForPoint (startPosition identifier) = "0,4".
Proof. reflexivity. Qed.

Example point_of_key : _keyToObject engine "0,4" = Some (mkPoint 0 4).
Proof. reflexivity. Qed.

(** Keys inherited from [Object.prototype] are outside the embedding; the
    captures of the fixture have none. *)
Example inherited_keys :
  noInheritedKeys [("toString", "x")] = false /\
  noInheritedKeys [("offsetStart", "1"); ("hasOwnProperty", "x")] = false /\
  noInheritedKeys (setProperties withNote) = true /\
  noInheritedKeys (setProperties offsetXThenStartAt) = true.
Proof. repeat split. Qed.

(** The validator with its guards: a string for an index, a missing field,
    and a node where a position is expected (its [row] is [undefined], the
    comparison is with [NaN] and turns nothing away). *)
Example validator_guards :
  isValidRangeOf (JPoint (mkPoint 0 0)) (JString "0") (JPoint (mkPoint 0 1)) (JNumber 1)
    = Normal false /\
  isValidRangeOf JUndefined JUndefined JUndefined JUndefined = Normal false /\
  isValidRangeOf (JNode identifier) (JNumber 4) (JPoint (mkPoint 0 5)) (JNumber 5)
    = Normal true /\
  isValidRangeOf JNull (JNumber 4) (JPoint (mkPoint 0 5)) (JNumber 5) = Throw TypeError.
Proof. repeat split. Qed.

(** Descriptors. *)
Example descriptor_parts : split_dot "parent.startPosition" = ["parent"; "startPosition"].
Proof. reflexivity. Qed.

Example parent_start :
  resolveNodePosition identifier "parent.startPosition" = Normal (JPoint (mkPoint 0 0)).
Proof. reflexivity. Qed.

Example unknown_property :
  resolveNodePosition identifier "nextSibling" = Normal JUndefined.
Proof. reflexivity. Qed.

Example property_of_nothing :
  resolveNodePosition statement "parent.startPosition" = Throw TypeError.
Proof. reflexivity. Qed.

(** A capture narrowed to the first match of a pattern, and what the
    iterator yields afterwards. *)
Example around_equals :
  result (store engine aroundEquals) fresh
    = Normal (Some (mkRange (mkPoint 0 6) 6 (mkPoint 0 7) 7)).
Proof. reflexivity. Qed.

Example boundaries_around_equals :
  boundaries engine afterAroundEquals ≡ₚ
    [ (Some (mkPoint 0 6), mkBundle ["operator"] []);
      (Some (mkPoint 0 7), mkBundle [] ["operator"]) ].
Proof. vm_compute. first [reflexivity | apply perm_swap]. Qed.

(** The identifier is not the last text on its row; the statement is. *)
Example identifier_not_last_on_row :
  onlyIfLastTextOnRow identifier "true" [] None fresh = Normal false /\
  onlyIfLastTextOnRow statement "true" [] None fresh = Normal true.
Proof. split; reflexivity. Qed.

(** [final true] on the identifier; the whole statement is stored in between;
    then a [shy] capture of the identifier is turned away. *)
Lemma final_rejects_later_captures_witness :
  store engine shyOne afterFinalTrue = (Normal None, afterFinalTrue) /\
  map afterFinalTrue = map afterFinalTrue /\
  rangeData afterFinalTrue = rangeData afterFinalTrue.
Proof.
  apply (final_rejects_later_captures engine fresh finalTrue (extent identifier) fresh
           [whole] shyOne (extent identifier)).
  - split; reflexivity.
  - reflexivity.
  - reflexivity.
  - reflexivity.
Defined.

(** C1, as stated, fails: metadata that contains the key [final] with the
    empty string as its value does not close the range; the next capture of
    the same range is stored, replaces the metadata and adds boundaries. *)
Lemma final_key_with_falsy_value_does_not_lock :
  props_has (setProperties finalEmpty) "final" = true /\
  rangeData afterFinalEmpty !! _keyForRange (extent identifier)
    = Some (setProperties finalEmpty) /\
  resolvesTo engine plain afterFinalEmpty (extent identifier) afterFinalEmpty /\
  result (store engine plain) afterFinalEmpty = Normal (Some (extent identifier)) /\
  rangeData (run (store engine plain) afterFinalEmpty) !! _keyForRange (extent identifier)
    = Some [] /\
  openAt (run (store engine plain) afterFinalEmpty) (mkPoint 0 4)
    = ["keyword"; "variable"] /\
  closeAt (run (store engine plain) afterFinalEmpty) (mkPoint 0 5)
    = ["variable"; "keyword"].
Proof. repeat split; vm_compute; reflexivity. Qed.

Lemma later_capture_replaces_metadata_witness :
  rangeData afterFirst !! _keyForRange (extent identifier) = Some [("a", "1")] /\
  rangeData (run (store engine second) afterFirst) !! _keyForRange (extent identifier)
    = Some [("b", "2")].
Proof.
  apply (later_capture_replaces_metadata engine fresh first (extent identifier) fresh
           second (extent identifier) afterFirst).
  - split; reflexivity.
  - split; reflexivity.
  - reflexivity.
  - reflexivity.
Defined.

(** C2, as stated, fails: the first capture has no [final], the second one
    passes its tests, and the metadata of the range is the second one's. *)
Lemma first_claim_is_overwritten :
  props_has (setProperties first) "final" = false /\
  result (store engine first) fresh = Normal (Some (extent identifier)) /\
  result (store engine second) afterFirst = Normal (Some (extent identifier)) /\
  rangeData afterFirst !! _keyForRange (extent identifier)
    = Some (setProperties first) /\
  rangeData (run (store engine second) afterFirst) !! _keyForRange (extent identifier)
    <> Some (setProperties first).
Proof. repeat split; try (vm_compute; reflexivity). vm_compute. discriminate. Qed.



Lemma same_position_captures_nest_witness :
  openAt afterABC (mkPoint 0 4) = ["a"; "b"; "c"] /\
  closeAt afterABC (mkPoint 0 5) = ["c"; "b"; "a"].
Proof.
  pose proof (same_position_captures_nest engine fresh scopeA scopeB scopeC
                (extent identifier) (extent identifier) (extent identifier)
                afterA afterAB afterABC
                (mkPoint 0 4) (mkPoint 0 5)
                eq_refl eq_refl eq_refl) as [Hopen Hclose].
  split.
  - exact (Hopen eq_refl eq_refl eq_refl).
  - exact (Hclose eq_refl eq_refl eq_refl).
Defined.

Lemma ignored_capture_records_metadata_only_witness :
  result (store engine ignored) fresh = Normal None /\
  rangeData (run (store engine ignored) fresh) !! _keyForRange (extent identifier)
    = Some [("kind", "local")] /\
  map (run (store engine ignored) fresh) = map fresh /\
  (forall point,
     openAt (run (store engine ignored) fresh) point = openAt fresh point /\
     closeAt (run (store engine ignored) fresh) point = closeAt fresh point).
Proof.
  apply (ignored_capture_records_metadata_only engine ignored fresh
           (extent identifier) fresh).
  - split; reflexivity.
  - reflexivity.
Defined.

(** [startAt parent.startPosition]: the parent starts at column 0, the
    identifier at column 4. *)
Lemma position_outside_node_throws_witness :
  store engine startAtParent fresh = (Throw outOfRange, fresh).
Proof.
  apply (position_outside_node_throws engine startAtParent fresh
           [] "startAt" "parent.startPosition" [] (extent identifier) fresh (mkPoint 0 0)).
  - reflexivity.
  - reflexivity.
  - reflexivity.
  - reflexivity.
  - reflexivity.
Defined.

(** C7, as stated, fails: the position [startAt] names is outside the node,
    but [offsetStart x] comes first in key order and returns [null], so the
    capture is dropped silently and no error leaves [store]. *)
Lemma earlier_null_hides_the_error :
  resolvedPosition engine "startAt" "parent.startPosition" identifier
    (extent identifier) fresh = Some (mkPoint 0 0) /\
  isBetweenPoints (mkPoint 0 0) (startPosition identifier) (endPosition identifier)
    = false /\
  result (store engine offsetXThenStartAt) fresh = Normal None.
Proof. repeat split. Qed.

Lemma non_numeric_offset_drops_capture_witness :
  (forall range s',
     offsetStart (ScopeId:=string) engine identifier "x" [("offsetStart", "x")] range s' = (Normal None, s') /\
     offsetEnd (ScopeId:=string) engine identifier "x" [("offsetStart", "x")] range s' = (Normal None, s')) /\
  store engine offsetX fresh = (Normal None, fresh) /\
  map fresh = map fresh /\
  rangeData fresh = rangeData fresh.
Proof.
  apply (non_numeric_offset_drops_capture (ScopeId:=string) engine offsetX fresh
           [] "offsetStart" "x" [] (Some (extent identifier)) fresh).
  - reflexivity.
  - reflexivity.
  - reflexivity.
  - reflexivity.
Defined.

(** C8, as stated, fails: [offsetStart x] is not a number, but [startAt]
    comes first in key order and throws. *)
Lemma earlier_error_precedes_the_drop :
  props_get (setProperties startAtThenOffsetX) "offsetStart" = Some "x" /\
  ToNumber engine "x" = None /\
  result (store engine startAtThenOffsetX) fresh = Throw outOfRange.
Proof. repeat split. Qed.

(** A pattern is compiled while a capture is stored; after [reset] it is
    still answered from the cache. *)
Lemma reset_clears_stores_keeps_patterns_witness :
  patternCache afterAroundEquals !! "=" = Some (mkRegExp 0 "=") /\
  getOrCompilePattern engine "=" (reset afterAroundEquals)
    = (Normal (mkRegExp 0 "="), reset afterAroundEquals) /\
  getDataForRange (reset afterAroundEquals) (mkRange (mkPoint 0 6) 6 (mkPoint 0 7) 7)
    = None /\
  bundleAt (reset afterAroundEquals) (mkPoint 0 6) = None.
Proof.
  assert (patternCache afterAroundEquals !! "=" = Some (mkRegExp 0 "=")) as Hcached
    by (vm_compute; reflexivity).
  pose proof (reset_clears_stores_keeps_patterns engine afterAroundEquals)
    as (Hdata & Hbundle & _ & _ & _ & Hpattern & _).
  split; [exact Hcached|]. split; [exact (Hpattern "=" _ Hcached)|].
  split; [apply Hdata | apply Hbundle].
Defined.

(** A [shy] capture of a range that holds metadata is turned away. *)
Lemma rejection_leaves_stores_alone_witness :
  store engine shyOne afterPlain = (Normal None, afterPlain) /\
  untouched afterPlain afterPlain.
Proof.
  apply (proj1 (proj2 (rejection_leaves_stores_alone engine shyOne afterPlain))
           (extent identifier) afterPlain).
  - reflexivity.
  - reflexivity.
Defined.

(** C10, as stated, fails in its last clause: a capture whose pattern finds
    no match is rejected, and the call has added the compiled pattern to the
    pattern cache. *)
Lemma rejected_capture_fills_pattern_cache :
  determineCaptureRange engine noMatch fresh = (Normal None, afterNoMatch) /\
  result (store engine noMatch) fresh = Normal None /\
  patternCache fresh !! "zzz" = None /\
  patternCache afterNoMatch !! "zzz" = Some (mkRegExp 0 "zzz") /\
  allocated afterNoMatch <> allocated fresh.
Proof. repeat split; try (vm_compute; reflexivity). vm_compute. discriminate. Qed.

(** ** The further properties at work *)

Lemma resolveNodePosition_two_parts_witness :
  resolveNodePosition identifier ("parent" +:+ "." +:+ "startPosition") =
  if truthy (node_property identifier "parent")
  then get_property (node_property identifier "parent") "startPosition"
  else Throw TypeError.
Proof.
  apply (resolveNodePosition_two_parts identifier "parent" "startPosition").
  - reflexivity.
  - reflexivity.
Defined.

(** The directive [note] is no directive: the capture fares as the one
    without it. *)
Lemma unknown_directives_are_skipped_witness :
  fst (store engine withNote afterFinalEmpty) = fst (store engine plain afterFinalEmpty) /\
  map (snd (store engine withNote afterFinalEmpty))
    = map (snd (store engine plain afterFinalEmpty)) /\
  patternCache (snd (store engine withNote afterFinalEmpty))
    = patternCache (snd (store engine plain afterFinalEmpty)).
Proof.
  apply (unknown_directives_are_skipped engine withNote plain afterFinalEmpty).
  - reflexivity.
  - reflexivity.
  - reflexivity.
  - reflexivity.
  - reflexivity.
  - reflexivity.
Defined.

Lemma shy_capture_yields_witness :
  (forall stored, fst (store engine shyOne afterPlain) <> Normal (Some stored)) /\
  snd (store engine shyOne afterPlain) = afterPlain /\
  map afterPlain = map afterPlain /\
  rangeData afterPlain = rangeData afterPlain.
Proof.
  apply (shy_capture_yields engine shyOne afterPlain (extent identifier) afterPlain).
  - reflexivity.
  - vm_compute. eexists. reflexivity.
  - reflexivity.
Defined.

Lemma undirected_capture_is_stored_witness :
  accepts engine withNote fresh (extent identifier) fresh /\
  (interpolateName (name withNote) (node withNote) <> IGNORE ->
   fst (store engine withNote fresh) = Normal (Some (extent identifier))).
Proof.
  apply (undirected_capture_is_stored engine withNote fresh).
  - reflexivity.
  - reflexivity.
  - reflexivity.
  - reflexivity.
Defined.

(** The [shy] capture carries one test and no inherited-name key. *)
Lemma test_is_conjunction_witness :
  test None (setProperties shyOne) identifier fresh = Normal true <->
  existing_final None = false /\
  forall key value t,
    (key, value) ∈ setProperties shyOne ->
    table_get (@TESTS string) key = Some t ->
    t identifier value (setProperties shyOne) None fresh = Normal true.
Proof.
  apply (test_is_conjunction None (setProperties shyOne) identifier fresh).
  reflexivity.
Defined.

Lemma opposite_tests_exclude_each_other_witness :
  (exists tp tn : Test (ScopeId:=string),
     table_get TESTS "onlyIfFirst" = Some tp /\
     table_get TESTS "onlyIfNotFirst" = Some tn /\
     forall node value props existingData s,
       tn node value props existingData s
       = negated (tp node value props existingData s)) /\
  (forall existingData props node (s : ScopeResolver string) value,
     ("onlyIfFirst", value) ∈ props ->
     ("onlyIfNotFirst", value) ∈ props ->
     test existingData props node s <> Normal true).
Proof.
  apply (opposite_tests_exclude_each_other (ScopeId:=string)
           "onlyIfFirst" "onlyIfNotFirst").
  apply (bool_decide_unpack _). vm_compute. exact I.
Defined.

Lemma store_boundaries_exact_witness :
  openAt afterA (mkPoint 0 4) =
    (if decide (mkPoint 0 4 = range_startPosition (extent identifier))
     then openAt fresh (mkPoint 0 4) ++ [scopeOf fresh scopeA]
     else openAt fresh (mkPoint 0 4)) /\
  closeAt afterA (mkPoint 0 4) =
    (if decide (mkPoint 0 4 = range_endPosition (extent identifier))
     then scopeOf fresh scopeA :: closeAt fresh (mkPoint 0 4)
     else closeAt fresh (mkPoint 0 4)).
Proof.
  apply (store_boundaries_exact engine scopeA fresh (extent identifier) afterA).
  reflexivity.
Defined.

Lemma boundaries_stay_balanced_witness :
  openCount (storeAll engine [scopeA; shyOne; zeroWidth; ignored] fresh)
  = closeCount (storeAll engine [scopeA; shyOne; zeroWidth; ignored] fresh).
Proof.
  apply (boundaries_stay_balanced engine [scopeA; shyOne; zeroWidth; ignored] fresh).
  reflexivity.
Defined.

(** A range elsewhere on the line with the identifier's indices gets the
    identifier's metadata. *)
Lemma store_metadata_exact_witness :
  getDataForRange (snd (store engine first fresh))
    (mkRange (mkPoint 2 0) 4 (mkPoint 2 1) 5) =
  if decide (sameIndices (mkRange (mkPoint 2 0) 4 (mkPoint 2 1) 5) (extent identifier))
  then Some (setProperties first)
  else getDataForRange fresh (mkRange (mkPoint 2 0) 4 (mkPoint 2 1) 5).
Proof.
  apply (store_metadata_exact engine first fresh (extent identifier) fresh).
  split; reflexivity.
Defined.

Lemma final_metadata_is_frozen_witness :
  rangeData (storeAll engine [plain; second; ignored] afterFinalTrue) !! "4/5"
  = rangeData afterFinalTrue !! "4/5".
Proof.
  apply (final_metadata_is_frozen engine "4/5" [plain; second; ignored] afterFinalTrue).
  exists [("final", "true")]. split; vm_compute; reflexivity.
Defined.

Lemma pattern_cache_stays_consistent_witness :
  cacheConsistent (reset (storeAll engine [aroundEquals; noMatch; aroundEquals] fresh)).
Proof.
  pose proof (pattern_cache_stays_consistent (ScopeId:=string) engine)
    as (Hnew & _ & Hstore & Hreset).
  apply Hreset, Hstore, Hnew.
Defined.

Lemma getOrCompilePattern_memoizes_witness :
  getOrCompilePattern engine "=" (run (getOrCompilePattern engine "=") fresh)
    = (Normal (mkRegExp 0 "="), run (getOrCompilePattern engine "=") fresh) /\
  (patternCache fresh !! "=" = None ->
   regexp_id (mkRegExp 0 "=") = allocated fresh /\ source (mkRegExp 0 "=") = "=" /\
   allocated (run (getOrCompilePattern engine "=") fresh) = S (allocated fresh)).
Proof.
  apply (proj1 (getOrCompilePattern_memoizes engine "=" fresh)
           (mkRegExp 0 "=") (run (getOrCompilePattern engine "=") fresh)).
  vm_compute. reflexivity.
Defined.

(** [offsetStart 4] on the statement: the range 4..11. *)
Lemma positional_adjustments_stay_within_witness :
  withinNode statement (mkRange (mkPoint 0 4) 4 (mkPoint 0 11) 11).
Proof.
  apply (positional_adjustments_stay_within engine narrowed fresh
           (mkRange (mkPoint 0 4) 4 (mkPoint 0 11) 11) fresh).
  - intros key value Hin _.
    apply list_elem_of_singleton in Hin. injection Hin as -> ->. reflexivity.
  - reflexivity.
Defined.

Lemma unmatched_pattern_drops_capture_witness :
  store engine noMatch fresh = (Normal None, afterNoMatch) /\
  map afterNoMatch = map fresh /\ rangeData afterNoMatch = rangeData fresh.
Proof.
  apply (proj1 (unmatched_pattern_drops_capture engine noMatch fresh
                  [] "startAndEndAroundFirstMatchOf" "zzz" [] (extent statement) fresh
                  eq_refl eq_refl eq_refl)
           (mkRegExp 0 "zzz") afterNoMatch).
  - vm_compute. reflexivity.
  - reflexivity.
Defined.

Lemma interpolateName_without_tokens_witness :
  interpolateName "variable.other" dollars = "variable.other" /\
  interpolateName IGNORE dollars = IGNORE.
Proof.
  apply (interpolateName_without_tokens "variable.other" dollars).
  - reflexivity.
  - reflexivity.
Defined.

Lemma interpolateName_brings_no_space_witness :
  includes (interpolateName "foo._TEXT_._TYPE_" statement) " " = false.
Proof.
  apply (interpolateName_brings_no_space "foo._TEXT_._TYPE_" statement).
  - reflexivity.
  - reflexivity.
Defined.

(** The decimal reader of the fixture reads printed integers back. *)
Lemma digitValue_pretty d :
  (d < 10)%N -> digitValue (pretty_N_char d) = Some (Z.of_N d).
Proof.
  intros H.
  assert (d = 0 \/ d = 1 \/ d = 2 \/ d = 3 \/ d = 4 \/ d = 5 \/ d = 6 \/ d = 7 \/
          d = 8 \/ d = 9)%N as Hd by lia.
  repeat (destruct Hd as [->|Hd]; [reflexivity|]). by subst.
Qed.

Lemma digits_pretty_N_go x :
  forall s, digits 0 (pretty_N_go x s) = digits (Z.of_N x) s.
Proof.
  induction (N.lt_wf_0 x) as [x _ IH]. intros s.
  destruct (decide (0 < x)%N) as [Hpos|Hzero].
  - rewrite pretty_N_go_step by done.
    rewrite IH by (by apply N.div_lt). cbn [digits].
    rewrite digitValue_pretty by (by apply N.mod_lt).
    f_equal. rewrite (N.div_mod x 10) at 3 by done. lia.
  - replace x with 0%N by lia. by rewrite pretty_N_go_0.
Qed.

Lemma decimal_pretty_pos (p : positive) :
  exists c rest,
    pretty_N_go (N.pos p) EmptyString = String c rest /\
    c <> "-"%char /\ c <> "+"%char /\
    digits 0 (String c rest) = Some (Z.pos p).
Proof.
  pose proof (digits_pretty_N_go (N.pos p) EmptyString) as Hdigits.
  assert (forall sign, (forall d, pretty_N_char d <> sign) ->
            avoids sign (pretty_N_go (N.pos p) EmptyString) = true) as Havoids
    by (intros sign Hsign; by apply avoids_pretty_N_go).
  pose proof (Havoids "-"%char) as Hminus. pose proof (Havoids "+"%char) as Hplus.
  destruct (pretty_N_go (N.pos p) EmptyString) as [|c rest]; [done|].
  exists c, rest. split; [done|].
  assert (forall sign, avoids sign (String c rest) = true -> c <> sign) as Hhead.
  { intros sign Hs ->. cbn [avoids] in Hs. by rewrite bool_decide_eq_true_2 in Hs. }
  split; [|split; [|done]].
  - apply Hhead, Hminus. intros d. unfold pretty_N_char. by repeat case_match.
  - apply Hhead, Hplus. intros d. unfold pretty_N_char. by repeat case_match.
Qed.

Lemma decimal_pretty (z : Z) : decimal (pretty z) = Some z.
Proof.
  destruct z as [|p|p]; [reflexivity| |].
  - destruct (decimal_pretty_pos p) as (c & rest & Hshape & Hminus & Hplus & Hdigits).
    change (pretty (Z.pos p)) with (pretty_N_go (N.pos p) EmptyString).
    rewrite Hshape. unfold decimal.
    by rewrite !bool_decide_eq_false_2 by done.
  - destruct (decimal_pretty_pos p) as (c & rest & Hshape & Hminus & Hplus & Hdigits).
    change (pretty (Z.neg p)) with (String "-" (pretty_N_go (N.pos p) EmptyString)).
    rewrite Hshape. unfold decimal.
    rewrite bool_decide_eq_true_2, bool_decide_eq_false_2 by done.
    by rewrite Hdigits.
Qed.

Lemma iterator_yields_stored_positions_witness :
  (forall point, _keyToObject engine (_keyForPoint point) = Some point) /\
  (exists bundle,
     (Some (range_startPosition (extent identifier)), bundle) ∈ boundaries engine afterA /\
     scopeOf fresh scopeA ∈ open bundle) /\
  (exists bundle,
     (Some (range_endPosition (extent identifier)), bundle) ∈ boundaries engine afterA /\
     scopeOf fresh scopeA ∈ close bundle).
Proof.
  apply (iterator_yields_stored_positions engine scopeA fresh (extent identifier) afterA).
  - exact decimal_pretty.
  - reflexivity.
Defined.

(** The trailing comment is the last of its type and not the first. *)
Lemma first_and_last_of_type_witness :
  onlyIfFirstOfType trailing "true" [] None fresh =
    Normal (bool_decide (Forall (fun child => type child <> type trailing)
                           [firstComment; onlyName])) /\
  onlyIfLastOfType trailing "true" [] None fresh =
    Normal (bool_decide (Forall (fun child => type child <> type trailing) [])).
Proof.
  apply (first_and_last_of_type trailing family [firstComment; onlyName] lastComment []
           "true" [] None fresh).
  - reflexivity.
  - reflexivity.
  - reflexivity.
  - repeat constructor; vm_compute; discriminate.
  - constructor.
Defined.

(** The statement is recorded under [_IGNORE_]; the identifier inside it sees
    the key [kind]. *)
Lemma metadata_reaches_descendants_witness :
  onlyIfDescendantOfNodeWithData identifier "kind" [] None
    (snd (store engine ignoredStatement fresh)) = Normal true /\
  onlyIfNotDescendantOfNodeWithData identifier "kind" [] None
    (snd (store engine ignoredStatement fresh)) = Normal false.
Proof.
  apply (metadata_reaches_descendants engine ignoredStatement fresh
           (extent statement) fresh identifier statement "kind" [] None).
  - split; reflexivity.
  - simpl. constructor.
  - split; reflexivity.
  - reflexivity.
Defined.
